(** * VCF_functions: a shallow embedding of [VCF_functions.py]

    The module reads VEP-annotated VCF files and MAF files into tables,
    decodes one embedded multi-valued column per row, filters the decoded
    sub-records and optionally joins one sub-record per row by transcript
    identifier.

    Modelling choices:
    - text is a [string]; the string methods the module calls ([split],
      [replace], [startswith], [in]) are defined in [PyStr];
    - a [dict] is a [gmap] with string keys, a Python value that can have
      several shapes is a tagged union ([cell], [info_val], [pyseq]);
    - an exception is a value of the error monad [result]; a comprehension
      or an [apply] is a traversal that stops at the first exception;
    - a table is the list of its rows; the delimited-table parser of
      pandas, its compression inference, its [str.contains] and the gzip
      codec are outside the module and appear as section variables. *)

From stdpp Require Import gmap strings list fin_maps.
From Stdlib Require Import Ascii.

(** ** Exceptions *)

Inductive exn : Set :=
| KeyError
| ValueError
| IndexError
| AttributeError
| TypeError
| OSError.

Inductive result (A : Type) : Type :=
| Ok (a : A)
| Raise (e : exn).
Arguments Ok {A} a.
Arguments Raise {A} e.

Global Instance result_ret : MRet result := λ A a, Ok a.
Global Instance result_bind : MBind result := λ A B f m,
  match m with
  | Ok a => f a
  | Raise e => Raise e
  end.

Definition succeeds {A} (m : result A) : Prop := ∃ a, m = Ok a.

(** A comprehension or an [apply] whose body may raise: elements are
    visited in order and the first exception aborts the whole traversal. *)
Fixpoint traverse {A B} (f : A → result B) (l : list A) : result (list B) :=
  match l with
  | [] => Ok []
  | x :: l' => y ← f x ; ys ← traverse f l' ; Ok (y :: ys)
  end.

(** [[x for x in l if p(x)]] where the test may raise. *)
Fixpoint filterM {A} (p : A → result bool) (l : list A) : result (list A) :=
  match l with
  | [] => Ok []
  | x :: l' =>
      b ← p x ; ys ← filterM p l' ; Ok (if b : bool then x :: ys else ys)
  end.

(** ** Python string operations *)

Module PyStr.

(** [s.startswith(p)] *)
Fixpoint startswith (s p : string) {struct p} : bool :=
  match p with
  | "" => true
  | String a p' =>
      match s with
      | "" => false
      | String b s' => if decide (a = b) then startswith s' p' else false
      end
  end.

(** [s.endswith(p)] *)
Definition endswith (s p : string) : bool :=
  startswith (String.rev s) (String.rev p).

(** [sub in s] *)
Fixpoint contains (sub s : string) : bool :=
  startswith s sub ||
  match s with
  | "" => false
  | String _ s' => contains sub s'
  end.

(** [len(s)] *)
Fixpoint len (s : string) : nat :=
  match s with
  | "" => 0
  | String _ s' => S (len s')
  end.

(** [s[n:]] *)
Fixpoint drop (n : nat) (s : string) : string :=
  match n, s with
  | S n', String _ s' => drop n' s'
  | _, _ => s
  end.

(** Iterating a string yields its one-character substrings. *)
Fixpoint chars (s : string) : list string :=
  match s with
  | "" => []
  | String a s' => String a "" :: chars s'
  end.

Definition cons_head (c : ascii) (l : list string) : list string :=
  match l with
  | [] => [String c ""]
  | h :: t => String c h :: t
  end.

(** [s.split(sep)] for a non-empty separator [sep] (every call site passes
    a non-empty literal).  [skip] counts the characters of a matched
    separator that are still to be consumed. *)
Fixpoint split_go (sep : string) (skip : nat) (s : string) : list string :=
  match s with
  | "" => [""]
  | String c s' =>
      match skip with
      | S k => split_go sep k s'
      | O =>
          if startswith s sep
          then "" :: split_go sep (len sep - 1) s'
          else cons_head c (split_go sep 0 s')
      end
  end.

Definition split (s sep : string) : list string := split_go sep 0 s.

(** First occurrence of [sep] in [s]: the text before it and after it. *)
Fixpoint partition (s sep : string) : option (string * string) :=
  if startswith s sep then Some ("", drop (len sep) s)
  else
    match s with
    | "" => None
    | String c s' =>
        match partition s' sep with
        | Some (a, b) => Some (String c a, b)
        | None => None
        end
    end.

(** [s.split(sep, 1)] *)
Definition split1 (s sep : string) : list string :=
  match partition s sep with
  | Some (a, b) => [a; b]
  | None => [s]
  end.

(** [s.replace(old, new)] for a non-empty [old]: occurrences are replaced
    from the left and do not overlap. *)
Fixpoint replace_go (old new : string) (skip : nat) (s : string) : string :=
  match s with
  | "" => ""
  | String c s' =>
      match skip with
      | S k => replace_go old new k s'
      | O =>
          if startswith s old
          then new +:+ replace_go old new (len old - 1) s'
          else String c (replace_go old new 0 s')
      end
  end.

Definition replace (s old new : string) : string := replace_go old new 0 s.

(** [sep.join(l)] *)
Fixpoint join (sep : string) (l : list string) : string :=
  match l with
  | [] => ""
  | [x] => x
  | x :: l' => x +:+ sep +:+ join sep l'
  end.

(** [s.count(c)] for a character [c] *)
Fixpoint count (c : ascii) (s : string) : nat :=
  match s with
  | "" => 0
  | String a s' => (if decide (a = c) then 1 else 0) + count c s'
  end.

(** The character [c] does not occur in [s]. *)
Fixpoint free_of (c : ascii) (s : string) : bool :=
  match s with
  | "" => true
  | String a s' => if decide (a = c) then false else free_of c s'
  end.

End PyStr.

(** The three characters (double quote, [>], line feed) that close the CSQ
    declaration line and that [csqkeys] removes. *)
Definition dquote : ascii := "034"%char.
Definition newline : ascii := "010"%char.
Definition csq_tail : string := String dquote (String ">" (String newline "")).


(** ** Python values that occur in the tables *)

(** A decoded sub-record: a [dict] from field name to string value. *)
Abbreviation subrecord := (gmap string string).

(** A value of the INFO dictionary: the raw text of a key, or, for the
    CSQ key once [update_value] has run, a list of sub-records. *)
Inductive info_val : Type :=
| IStr (s : string)
| ICsq (l : list subrecord).

Abbreviation info_dict := (gmap string info_val).

(** The contents of one table cell. *)
Inductive cell : Type :=
| CStr (s : string)            (* text *)
| CNaN                         (* [np.nan] *)
| CTokens (l : list string)    (* a list of strings *)
| CInfo (d : info_dict)        (* the INFO dictionary *)
| CRecs (l : list subrecord)   (* a list of sub-records *)
| CRec (d : subrecord).        (* one sub-record *)

(** A sequence of key names: what [csqkeys] returns is the string [''] when
    no declaration line was seen and a list of strings otherwise. *)
Inductive pyseq : Type :=
| PStr (s : string)
| PList (l : list string).

(** The elements that iterating the sequence yields. *)
Definition iter (q : pyseq) : list string :=
  match q with
  | PStr s => PyStr.chars s
  | PList l => l
  end.

(** [d[k]] *)
Definition getitem {V} (d : gmap string V) (k : string) : result V :=
  match d !! k with
  | Some v => Ok v
  | None => Raise KeyError
  end.

(** [l[n]] for a non-negative index *)
Definition getidx {A} (l : list A) (n : nat) : result A :=
  match l !! n with
  | Some x => Ok x
  | None => Raise IndexError
  end.

(** [dict(pairs)]: later pairs overwrite earlier ones. *)
Definition dict_of {V} (pairs : list (string * V)) : gmap string V :=
  foldl (λ m kv, <[kv.1 := kv.2]> m) ∅ pairs.

(** [dict(zip(keys, values))]: [zip] stops at the shorter sequence. *)
Definition dict_zip (keys : list string) (values : list string) : subrecord :=
  dict_of (zip keys values).

(** ** Header scanner *)

(** The lines a text file yields when iterated: each keeps its line feed. *)
Fixpoint readlines (text : string) : list string :=
  match text with
  | "" => []
  | String c text' =>
      if decide (c = newline) then String c "" :: readlines text'
      else PyStr.cons_head c (readlines text')
  end.

(** Loop of [rows2skip] over the lines of the file. *)
Fixpoint rows2skip_loop (skip_rows : nat) (lines : list string) : nat :=
  match lines with
  | [] => skip_rows
  | line :: rest =>
      if PyStr.startswith line "##" then rows2skip_loop (S skip_rows) rest
      else skip_rows
  end.

(** [len(identifier) > 0 and len(sample_id) > 0] *)
Definition both_found (identifier sample_id : string) : bool :=
  (0 <? PyStr.len identifier) && (0 <? PyStr.len sample_id).

(** Loop of [case_id] over the lines of the file. *)
Fixpoint case_id_loop (identifier sample_id : string) (lines : list string)
  : result (string * string) :=
  match lines with
  | [] => Ok (identifier, sample_id)
  | line :: rest =>
      if PyStr.startswith line "##" then
        if PyStr.startswith line "##INDIVIDUAL" then
          x ← getidx (PyStr.split line ",") 0;
          let identifier := PyStr.replace x "##INDIVIDUAL=<NAME=" "" in
          if both_found identifier sample_id
          then Ok (identifier, sample_id)
          else case_id_loop identifier sample_id rest
        else if PyStr.startswith line "##SAMPLE=<ID=TUMOR" then
          x ← getidx (PyStr.split line ",") 1;
          let sample_id := PyStr.replace x "NAME=" "" in
          if both_found identifier sample_id
          then Ok (identifier, sample_id)
          else case_id_loop identifier sample_id rest
        else case_id_loop identifier sample_id rest
      else Ok (identifier, sample_id)
  end.

(** Loop of [csqkeys] over the lines of the file. *)
Fixpoint csqkeys_loop (lines : list string) : result pyseq :=
  match lines with
  | [] => Ok (PStr "")
  | line :: rest =>
      if PyStr.startswith line "##INFO=<ID=CSQ" then
        x ← getidx (PyStr.split1 line "Format: ") 1;
        Ok (PList (PyStr.split (PyStr.replace x csq_tail "") "|"))
      else csqkeys_loop rest
  end.

(** ** Embedded-field decoder, VCF *)

(** Line 286: tokens of the INFO text, [=nan] appended where [=] is absent. *)
Definition info_tokens (x : string) : list string :=
  map (λ i, if negb (PyStr.contains "=" i) then i +:+ "=nan" else i)
      (PyStr.split x ";").

(** One element of the sequence given to [dict(...)] on line 289: it must
    have exactly two items, otherwise [dict] raises [ValueError]. *)
Definition info_pair (item : string) : result (string * info_val) :=
  match PyStr.split item "=" with
  | [k; v] => Ok (k, IStr v)
  | _ => Raise ValueError
  end.

(** Line 289: [dict(item.split("=") for item in x)] *)
Definition info_dict_of (x : list string) : result info_dict :=
  pairs ← traverse info_pair x; Ok (dict_of pairs).

(** Decoding of one CSQ sub-entry against the schema. *)
Definition decode_entry (keys : pyseq) (sep entry : string) : subrecord :=
  dict_zip (iter keys) (PyStr.split entry sep).

Definition update_value (dict_a : info_dict) (key : string) (csq_keys : pyseq)
  : result info_dict :=
  v ← getitem dict_a key;
  match v with
  | IStr s =>
      Ok (<[key := ICsq (map (decode_entry csq_keys "|") (PyStr.split s ","))]> dict_a)
  | ICsq _ => Raise AttributeError
  end.

(** ** Embedded-field decoder, MAF *)

Definition maf_keys : list string :=
  ["Symbol_all_effects"; "Consequence_all_effects"; "HGVSp_Short_all_effects";
   "Transcript_ID_all_effects"; "RefSeq_all_effects"; "HGVSc_all_effects";
   "Impact_all_effects"; "Canonical_all_effects"; "Sift_all_effects";
   "PolyPhen_all_effects"; "Strand_all_effects"].

(** Line 370 on one cell text. *)
Definition decode_all_effects (x : string) : list subrecord :=
  map (decode_entry (PList maf_keys) ",") (PyStr.split x ";").

(** ** Variant filter *)

(** The sub-records held under a key of the INFO dictionary, as a [for]
    over the value visits them.  Iterating text yields characters, and
    subscripting a character with a field name raises [TypeError]. *)
Definition csq_records (v : info_val) : result (list subrecord) :=
  match v with
  | ICsq l => Ok l
  | IStr "" => Ok []
  | IStr _ => Raise TypeError
  end.

(** The test of the comprehension in [filter_variants]; [and] evaluates its
    right operand only when the left one holds. *)
Definition keep_vcf (variant variant_class : string) (i : subrecord) : result bool :=
  c ← getitem i "Consequence";
  if PyStr.contains variant c then
    v ← getitem i "VARIANT_CLASS"; Ok (PyStr.contains variant_class v)
  else Ok false.

Definition filter_variants (dict_a : info_dict) (variant variant_class : string)
  : result info_dict :=
  v ← getitem dict_a "CSQ";
  l ← csq_records v;
  l' ← filterM (keep_vcf variant variant_class) l;
  Ok (<["CSQ" := ICsq l']> dict_a).

Definition keep_maf (variant : string) (dic : subrecord) : result bool :=
  c ← getitem dic "Consequence_all_effects"; Ok (PyStr.contains variant c).

Definition filter_variants_maf (list_of_dicts : list subrecord) (variant : string)
  : result cell :=
  updated_list_of_dicts ← filterM (keep_maf variant) list_of_dicts;
  if 0 <? length updated_list_of_dicts then Ok (CRecs updated_list_of_dicts)
  else Ok CNaN.

(** ** Transcript resolver *)

(** The variable [variants] of the resolvers holds the string [''] until a
    sub-record is assigned to it. *)
Definition variants_len (variants : option subrecord) : nat :=
  match variants with
  | None => 0
  | Some d => size d
  end.

(** The [for] loop shared by both resolvers: [field] is the key read from
    each sub-record, a later match overwrites an earlier one. *)
Fixpoint find_loop (field : string) (id_list : list string)
    (variants : option subrecord) (l : list subrecord)
  : result (option subrecord) :=
  match l with
  | [] => Ok variants
  | i :: rest =>
      f ← getitem i field;
      if decide (f ∈ id_list) then find_loop field id_list (Some i) rest
      else find_loop field id_list variants rest
  end.

Definition find_result (variants : option subrecord) : cell :=
  if 0 <? variants_len variants then
    match variants with
    | Some d => CRec d
    | None => CStr ""
    end
  else CNaN.

Definition find_variants (dict_a : info_dict) (id_list : list string) : result cell :=
  v ← getitem dict_a "CSQ";
  l ← csq_records v;
  variants ← find_loop "Feature" id_list None l;
  Ok (find_result variants).

Definition find_variants_maf (list_of_dicts : list subrecord) (id_list : list string)
  : result cell :=
  variants ← find_loop "Transcript_ID_all_effects" id_list None list_of_dicts;
  Ok (find_result variants).

(** ** Tables *)

(** A table is modelled by its rows, a row by the mapping from column name
    to cell; reading a column that a row lacks raises [KeyError]. *)
Abbreviation row := (gmap string cell).
Abbreviation frame := (list row).

(** What the pipelines return: the filtered table itself, or the result of
    [pd.concat(..., axis = 1)], which puts the columns of the flattened
    sub-record beside those of the row (pandas keeps both columns when a
    name occurs on each side, so the two blocks stay apart). *)
Inductive table : Type :=
| Table (rows : frame)
| Joined (rows : list (row * row)).

(** [df[dst] = df[src].apply(f)], on one row and on the table. *)
Definition row_apply (src dst : string) (f : cell → result cell) (r : row)
  : result row :=
  c ← getitem r src; v ← f c; Ok (<[dst := v]> r).

Definition apply_col (src dst : string) (f : cell → result cell) (df : frame)
  : result frame :=
  traverse (row_apply src dst f) df.

Definition is_na (c : cell) : bool :=
  match c with
  | CNaN => true
  | _ => false
  end.

(** [df.dropna(subset = [col])] *)
Definition dropna (col : string) (df : frame) : frame :=
  List.filter (λ r, match r !! col with Some c => negb (is_na c) | None => true end) df.

(** [pd.json_normalize] of a column of flat dictionaries: one column per key
    that occurs in some dictionary, [NaN] where a dictionary lacks it. *)
Definition normalize_keys (ds : list subrecord) : gset string :=
  foldr (λ d acc, dom d ∪ acc) ∅ ds.

Definition normalize_row (keys : gset string) (d : subrecord) : row :=
  (CStr <$> d) ∪ gset_to_gmap CNaN keys.

Definition as_record (c : cell) : result subrecord :=
  match c with
  | CRec d => Ok d
  | _ => Raise TypeError
  end.

Definition json_normalize (col : string) (df : frame) : result frame :=
  ds ← traverse (λ r, c ← getitem r col; as_record c) df;
  Ok (map (normalize_row (normalize_keys ds)) ds).

(** [pd.concat([df.drop([col], axis = 1).reset_index(drop = True), dv], axis = 1)] *)
Definition concat_drop (col : string) (df dv : frame) : list (row * row) :=
  zip (map (delete col) df) dv.

(** The resolution and expansion stage shared by both pipelines. *)
Definition extend (src : string) (find : cell → result cell) (df : frame)
  : result table :=
  df ← apply_col src "Variant_INFO" find df;
  let df := dropna "Variant_INFO" df in
  df_variant ← json_normalize "Variant_INFO" df;
  Ok (Joined (concat_drop "Variant_INFO" df df_variant)).

(** ** The lambdas applied to the embedded column *)

(** A cell that is not text has no [split] method. *)
Definition cell_tokens (c : cell) : result cell :=
  match c with
  | CStr x => Ok (CTokens (info_tokens x))
  | _ => Raise AttributeError
  end.

Definition cell_dict (c : cell) : result cell :=
  match c with
  | CTokens x => d ← info_dict_of x; Ok (CInfo d)
  | _ => Raise TypeError
  end.

Definition cell_update (csq_keys : pyseq) (c : cell) : result cell :=
  match c with
  | CInfo x => d ← update_value x "CSQ" csq_keys; Ok (CInfo d)
  | _ => Raise TypeError
  end.

Definition cell_filter (variant variant_class : string) (c : cell) : result cell :=
  match c with
  | CInfo x => d ← filter_variants x variant variant_class; Ok (CInfo d)
  | _ => Raise TypeError
  end.

Definition cell_find (id_list : list string) (c : cell) : result cell :=
  match c with
  | CInfo x => find_variants x id_list
  | _ => Raise TypeError
  end.

Definition cell_effects (c : cell) : result cell :=
  match c with
  | CStr x => Ok (CRecs (decode_all_effects x))
  | _ => Raise AttributeError
  end.

Definition cell_filter_maf (consequence : string) (c : cell) : result cell :=
  match c with
  | CRecs x => filter_variants_maf x consequence
  | _ => Raise TypeError
  end.

Definition cell_find_maf (id_list : list string) (c : cell) : result cell :=
  match c with
  | CRecs x => find_variants_maf x id_list
  | _ => Raise TypeError
  end.

(** ** Pipelines over a loaded table *)

Section Tables.

(** [Series.str.contains(variant, case = False)] of pandas on one cell, as
    the entry it contributes to the boolean mask of line 283. *)
Variable str_contains : string → cell → bool.

Definition is_pass (c : cell) : bool :=
  match c with
  | CStr s => bool_decide (s = "PASS")
  | _ => false
  end.

Definition vcf_mask (variant : string) (r : row) : result bool :=
  f ← getitem r "FILTER";
  i ← getitem r "INFO";
  Ok (is_pass f && str_contains variant i).

(** Lines 283 to 295: the rows kept, with INFO decoded and filtered. *)
Definition vcf_filtered (csq_keys : pyseq) (df : frame)
    (variant variant_class : string) : result frame :=
  df ← filterM (vcf_mask variant) df;
  df ← apply_col "INFO" "INFO" cell_tokens df;
  df ← apply_col "INFO" "INFO" cell_dict df;
  df ← apply_col "INFO" "INFO" (cell_update csq_keys) df;
  apply_col "INFO" "INFO" (cell_filter variant variant_class) df.

(** Lines 283 to 324 of [read_process_vcf], after the file was read. *)
Definition process_vcf (csq_keys : pyseq) (df : frame)
    (variant variant_class : string) (id_list : list string) : result table :=
  df ← vcf_filtered csq_keys df variant variant_class;
  if 0 <? length id_list then extend "INFO" (cell_find id_list) df
  else Ok (Table df).

End Tables.

(** Lines 370 to 376: [all_effects] decoded and filtered, empty rows dropped. *)
Definition maf_filtered (df : frame) (consequence : string) : result frame :=
  df ← apply_col "all_effects" "all_effects" cell_effects df;
  df ← apply_col "all_effects" "all_effects" (cell_filter_maf consequence) df;
  Ok (dropna "all_effects" df).

(** Lines 365 to 391 of [read_process_maf], after the file was read. *)
Definition process_maf (df : frame) (variant consequence variant_class : string)
    (id_list : list string) : result table :=
  df ← maf_filtered df consequence;
  if 0 <? length id_list then extend "all_effects" (cell_find_maf id_list) df
  else Ok (Table df).

(** ** Files *)

(** A file on disk: its path and its stored content. *)
Record file : Type := { path : string; raw : string }.

(** What [read_process_vcf] returns: the table, with the case identifier
    and the sample identifier when [return_case_id] is set. *)
Inductive vcf_return : Type :=
| Ret (df : table)
| RetId (df : table) (identifier sample_id : string).

Section Files.

(** [gzip.open(file, mode = 'rt')]: the decompressed text. *)
Variable gunzip : string → result string.

(** The codec pandas infers from a path ([compression = 'infer']), [None]
    when it reads the file as it is stored. *)
Variable pd_infer : string → option (string → result string).

(** The delimited-table parser of pandas on a text, with the number of
    leading lines to skip: [sep = '\t', skiprows = n] for VCF and
    [sep = '\t', comment = '#'] for MAF. *)
Variable parse_vcf : string → nat → result frame.
Variable parse_maf : string → result frame.

Variable str_contains : string → cell → bool.

(** [fn_open = gzip.open if file.endswith('.gz') else open] *)
Definition fn_open (f : file) : result string :=
  if PyStr.endswith (path f) ".gz" then gunzip (raw f) else Ok (raw f).

Definition pd_open (f : file) : result string :=
  match pd_infer (path f) with
  | Some codec => codec (raw f)
  | None => Ok (raw f)
  end.

Definition rows2skip (f : file) : result nat :=
  fh ← fn_open f; Ok (rows2skip_loop 0 (readlines fh)).

Definition case_id (f : file) : result (string * string) :=
  fh ← fn_open f; case_id_loop "" "" (readlines fh).

Definition csqkeys (f : file) : result pyseq :=
  fh ← fn_open f; csqkeys_loop (readlines fh).

(** [.rename({'#CHROM': 'CHROM'}, axis = 1)] *)
Definition rename_chrom (r : row) : row :=
  match r !! "#CHROM" with
  | Some c => <["CHROM" := c]> (delete "#CHROM" r)
  | None => r
  end.

Definition read_vcf (f : file) (skip_rows : nat) : result frame :=
  text ← pd_open f; df ← parse_vcf text skip_rows; Ok (map rename_chrom df).

Definition read_maf (f : file) : result frame :=
  text ← pd_open f; parse_maf text.

Definition read_process_vcf (f : file) (variant variant_class : string)
    (id_list : list string) (return_case_id : bool) : result vcf_return :=
  skip_rows ← rows2skip f;
  csq_keys ← csqkeys f;
  df ← read_vcf f skip_rows;
  out ← process_vcf str_contains csq_keys df variant variant_class id_list;
  if return_case_id then
    ids ← case_id f; Ok (RetId out ids.1 ids.2)
  else Ok (Ret out).

Definition read_process_maf (f : file) (variant consequence variant_class : string)
    (id_list : list string) : result table :=
  df ← read_maf f;
  process_maf df variant consequence variant_class id_list.

End Files.

(** ** Reference definitions used in the statements *)

(** The sub-record carries [field] with a value that is in [id_list]. *)
Definition matches_id (field : string) (id_list : list string) (r : subrecord) : bool :=
  match r !! field with
  | Some f => bool_decide (f ∈ id_list)
  | None => false
  end.

(** The last sub-record, in iteration order, that matches. *)
Definition last_match (field : string) (id_list : list string) (l : list subrecord)
  : option subrecord :=
  last (List.filter (matches_id field id_list) l).

(** Lines 286 to 295 on the INFO text of one row. *)
Definition decode_filter_info (csq_keys : pyseq) (variant variant_class x : string)
  : result info_dict :=
  d ← info_dict_of (info_tokens x);
  d ← update_value d "CSQ" csq_keys;
  filter_variants d variant variant_class.

(** The four lambdas of lines 286 to 295 applied in turn to one cell. *)
Definition cell_chain (csq_keys : pyseq) (variant variant_class : string) (c : cell)
  : result cell :=
  ((cell_tokens c ≫= cell_dict) ≫= cell_update csq_keys)
    ≫= cell_filter variant variant_class.

(** The two lambdas of lines 370 and 373 applied in turn to one cell. *)
Definition cell_chain_maf (consequence : string) (c : cell) : result cell :=
  cell_effects c ≫= cell_filter_maf consequence.

(** The row [r'] is the row [r] with INFO decoded and filtered. *)
Definition vcf_passthrough (csq_keys : pyseq) (variant variant_class : string)
    (r r' : row) : Prop :=
  ∃ x d, r !! "INFO" = Some (CStr x)
         ∧ decode_filter_info csq_keys variant variant_class x = Ok d
         ∧ r' = <["INFO" := CInfo d]> r.

(** The row [r'] is the row [r] with [all_effects] decoded and filtered. *)
Definition maf_decoded (consequence : string) (r r' : row) : Prop :=
  ∃ x c, r !! "all_effects" = Some (CStr x)
         ∧ filter_variants_maf (decode_all_effects x) consequence = Ok c
         ∧ r' = <["all_effects" := c]> r.

(** The mask entry of line 283 when the pattern has no regular-expression
    metacharacter and occurs in the text in the same letter case, where the
    search of pandas is a plain substring search. *)
Definition literal_contains (variant : string) (c : cell) : bool :=
  match c with
  | CStr s => PyStr.contains variant s
  | _ => false
  end.

(** A stand-in codec for the examples: the stored content is the text
    behind the two characters [GZ]. *)
Definition example_gunzip (stored : string) : result string :=
  if PyStr.startswith stored "GZ" then Ok (PyStr.drop 2 stored)
  else Raise OSError.

(** Data of the examples. *)
Definition example_sub (field id n : string) : subrecord :=
  <["n" := n]> {[field := id]}.

Definition example_subs (field : string) : list subrecord :=
  [example_sub field "T1" "1"; example_sub field "T2" "2"; example_sub field "T1" "3"].

Definition example_keys : pyseq :=
  PList ["Allele"; "Consequence"; "Feature"; "VARIANT_CLASS"].

Definition example_row (info : string) : row :=
  <["INFO" := CStr info]> (<["FILTER" := CStr "PASS"]> {["POS" := CStr "100"]}).

Definition example_maf_row (effects : string) : row :=
  <["all_effects" := CStr effects]> {["Hugo_Symbol" := CStr "TP53"]}.

Definition example_header : string :=
  "##fileformat=VCFv4.2" +:+ String newline
    ("##INDIVIDUAL=<NAME=C1,ID=7>" +:+ String newline
       ("##SAMPLE=<ID=TUMOR,NAME=S9,X=1>" +:+ String newline
          ("##INFO=<ID=CSQ,Number=.,Type=String,Description=" +:+ String dquote
             ("Consequence annotations from Ensembl VEP. "
                +:+ "Format: Allele|Consequence|Feature|VARIANT_CLASS" +:+ csq_tail
                +:+ "#CHROM" +:+ String newline
                  ("DP=10;CSQ=T|missense_variant|ENST1|SNP" +:+ String newline ""))))).

Definition example_pre : string :=
  "##INFO=<ID=CSQ,Number=.,Type=String,Description=" +:+ String dquote
    "Consequence annotations from Ensembl VEP. ".

Definition example_plain : file :=
  {| path := "sample.vep.vcf"; raw := example_header |}.

Definition example_gz : file :=
  {| path := "sample.vep.vcf.gz"; raw := "GZ" +:+ example_header |}.

Definition example_bare : file :=
  {| path := "bare.vcf";
     raw := "##fileformat=VCFv4.2" +:+ String newline ("#CHROM" +:+ String newline "") |}.

Definition example_sample : file :=
  {| path := "case.vcf"; raw := "##SAMPLE=<ID=TUMOR>" +:+ String newline "" |}.

(** Stand-ins for what pandas infers from a path and for its parser. *)
Definition example_infer (p : string) : option (string → result string) :=
  if PyStr.endswith p ".gz" then Some example_gunzip else None.

Definition example_parse (text : string) (skip_rows : nat) : result frame :=
  Ok (map (λ l, example_row (PyStr.replace l (String newline "") ""))
        (List.skipn (S skip_rows) (readlines text))).

(** ** Reference definitions for further properties *)

(** A metadata line that declares neither the case nor the tumor sample. *)
Definition other_metadata (l : string) : Prop :=
  PyStr.startswith l "##" = true
  ∧ PyStr.startswith l "##INDIVIDUAL" = false
  ∧ PyStr.startswith l "##SAMPLE=<ID=TUMOR" = false.

(** The [##INDIVIDUAL] line of a case named [name], and the [##SAMPLE] line
    of a tumor sample named [name], each with further fields [more]. *)
Definition individual_line (name more : string) : string :=
  "##INDIVIDUAL=<NAME=" +:+ name +:+ "," +:+ more.

Definition sample_line (name more : string) : string :=
  "##SAMPLE=<ID=TUMOR,NAME=" +:+ name +:+ "," +:+ more.

(** An INFO entry as it is written in the file: [key=value], or the bare
    [key] of a flag. *)
Definition encode_item (kv : string * option string) : string :=
  match kv.2 with
  | Some v => kv.1 +:+ "=" +:+ v
  | None => kv.1
  end.

(** What the outer decode stores for the entry. *)
Definition item_pair (kv : string * option string) : string * info_val :=
  (kv.1, IStr (default "nan" kv.2)).

(** Neither [;] nor [=] occurs in the key or in the value of the entry. *)
Definition plain_item (kv : string * option string) : Prop :=
  PyStr.free_of ";" kv.1 = true ∧ PyStr.free_of "=" kv.1 = true
  ∧ ∀ v, kv.2 = Some v → PyStr.free_of ";" v = true ∧ PyStr.free_of "=" v = true.

(** The sub-records that the VCF filter keeps: [Consequence] contains
    [variant] and [VARIANT_CLASS] contains [variant_class]. *)
Definition vcf_pred (variant variant_class : string) (r : subrecord) : bool :=
  match r !! "Consequence" with
  | Some c =>
      PyStr.contains variant c &&
      match r !! "VARIANT_CLASS" with
      | Some k => PyStr.contains variant_class k
      | None => false
      end
  | None => false
  end.

(** The sub-records on which the test of the VCF filter does not raise:
    [Consequence] is present, and so is [VARIANT_CLASS] when it is read. *)
Definition vcf_safe (variant : string) (r : subrecord) : Prop :=
  ∃ c, r !! "Consequence" = Some c
       ∧ (PyStr.contains variant c = true → is_Some (r !! "VARIANT_CLASS")).

(** The sub-records that the MAF filter keeps. *)
Definition maf_pred (consequence : string) (r : subrecord) : bool :=
  match r !! "Consequence_all_effects" with
  | Some c => PyStr.contains consequence c
  | None => false
  end.

(** Tables of the examples. *)
Definition example_vcf_frame : frame :=
  [example_row "DP=10;CSQ=T|missense_variant|ENST1|deletion";
   <["FILTER" := CStr "LowQual"]> (example_row "DP=10;CSQ=T|missense_variant|ENST1|SNP");
   example_row "DP=7;CSQ=T|missense_variant|ENST1|SNP,C|missense_variant|ENST2|SNP"].

Definition example_maf_frame : frame :=
  [example_maf_row "TP53,synonymous_variant,p.A1A,ENST1";
   example_maf_row "TP53,missense_variant,p.A1B,ENST1;TP53,missense_variant,p.A1C,ENST2"].

(** What the pipelines make of these tables for the patterns
    [missense_variant] and [SNP], and for the identifier [ENST2]. *)
Definition example_record (values : list string) : subrecord :=
  dict_zip (iter example_keys) values.

Definition example_vcf_out : frame :=
  [<["INFO" := CInfo (<["CSQ" := ICsq []]> {["DP" := IStr "10"]})]>
     (example_row "DP=10;CSQ=T|missense_variant|ENST1|deletion");
   <["INFO" := CInfo (<["CSQ" := ICsq [example_record ["T"; "missense_variant"; "ENST1"; "SNP"];
                                       example_record ["C"; "missense_variant"; "ENST2"; "SNP"]]]>
                        {["DP" := IStr "7"]})]>
     (example_row "DP=7;CSQ=T|missense_variant|ENST1|SNP,C|missense_variant|ENST2|SNP")].

Definition example_vcf_joined : list (row * row) :=
  [(<["INFO" := CInfo (<["CSQ" := ICsq [example_record ["T"; "missense_variant"; "ENST1"; "SNP"];
                                        example_record ["C"; "missense_variant"; "ENST2"; "SNP"]]]>
                         {["DP" := IStr "7"]})]>
      (example_row "DP=7;CSQ=T|missense_variant|ENST1|SNP,C|missense_variant|ENST2|SNP"),
    CStr <$> example_record ["C"; "missense_variant"; "ENST2"; "SNP"])].

Definition example_maf_out : frame :=
  [<["all_effects" :=
       CRecs (decode_all_effects
                "TP53,missense_variant,p.A1B,ENST1;TP53,missense_variant,p.A1C,ENST2")]>
     (example_maf_row
        "TP53,missense_variant,p.A1B,ENST1;TP53,missense_variant,p.A1C,ENST2")].

Definition example_maf_joined : list (row * row) :=
  [(<["all_effects" :=
        CRecs (decode_all_effects
                 "TP53,missense_variant,p.A1B,ENST1;TP53,missense_variant,p.A1C,ENST2")]>
      (example_maf_row
         "TP53,missense_variant,p.A1B,ENST1;TP53,missense_variant,p.A1C,ENST2"),
    CStr <$> decode_entry (PList maf_keys) "," "TP53,missense_variant,p.A1C,ENST2")].
(** * Facts about the string operations *)

Import PyStr.

Example split_ex1 : PyStr.split "a|b||c" "|" = ["a"; "b"; ""; "c"].
Proof. reflexivity. Qed.
Example split_ex2 : PyStr.split "" "," = [""].
Proof. reflexivity. Qed.
Example split_ex3 : PyStr.split "a=b=c" "=" = ["a"; "b"; "c"].
Proof. reflexivity. Qed.
Example split_ex4 : PyStr.split "xFormat: yFormat: z" "Format: " = ["x"; "y"; "z"].
Proof. reflexivity. Qed.
Example split1_ex : PyStr.split1 "xFormat: yFormat: z" "Format: " = ["x"; "yFormat: z"].
Proof. reflexivity. Qed.
Example replace_ex : PyStr.replace ("A|B" +:+ csq_tail) csq_tail "" = "A|B".
Proof. reflexivity. Qed.


Lemma str_app_nil_l s : "" +:+ s = s.
Proof. reflexivity. Qed.

Lemma str_app_cons a s t : String a s +:+ t = String a (s +:+ t).
Proof. reflexivity. Qed.

Ltac sapp := rewrite ?str_app_cons, ?str_app_nil_l in *; simpl.

Lemma str_app_nil_r s : s +:+ "" = s.
Proof. induction s; sapp; congruence. Qed.

Lemma str_app_assoc (s t u : string) : (s +:+ t) +:+ u = s +:+ t +:+ u.
Proof. induction s; sapp; congruence. Qed.

Lemma len_app s t : len (s +:+ t) = len s + len t.
Proof. induction s; sapp; auto. Qed.

Lemma startswith_app s p : startswith (p +:+ s) p = true.
Proof. induction p; sapp; [done|]. by rewrite decide_True. Qed.

Lemma startswith_app_l s p t : startswith s p = true → startswith (s +:+ t) p = true.
Proof.
  revert s. induction p as [|a p IH]; intros [|b s]; sapp; try done.
  case_decide; [auto|done].
Qed.

Lemma startswith_len s p : startswith s p = true → len p ≤ len s.
Proof.
  revert s. induction p as [|a p IH]; intros [|b s]; simpl; try done; try lia.
  case_decide; [|done]. intros ?%IH. lia.
Qed.

Lemma startswith_app_inv s p t :
  len p ≤ len s → startswith (s +:+ t) p = true → startswith s p = true.
Proof.
  revert s. induction p as [|a p IH]; intros [|b s]; sapp; try done; try lia.
  intros ?. case_decide; [|done]. apply IH. lia.
Qed.

Lemma drop_app n s t : n ≤ len s → drop n (s +:+ t) = drop n s +:+ t.
Proof.
  revert s. induction n as [|n IH]; intros [|a s]; sapp; try done; try lia.
  intros ?. apply IH. lia.
Qed.

Lemma drop_len_app p s : drop (len p) (p +:+ s) = s.
Proof. induction p; sapp; [by destruct s|done]. Qed.

Lemma split_go_nonempty sep k s : split_go sep k s ≠ [].
Proof.
  revert k. induction s as [|a s IH]; intros k; simpl; [done|].
  destruct k; [|done].
  destruct (startswith _ _); [done|].
  specialize (IH 0). by destruct (split_go sep 0 s).
Qed.

Lemma split_char_cons c a s :
  split (String a s) (String c "") =
    if decide (c = a) then "" :: split s (String c "")
    else cons_head a (split s (String c "")).
Proof. unfold split. simpl. by case_decide. Qed.

Lemma split_char_free c s : free_of c s = true → split s (String c "") = [s].
Proof.
  induction s as [|a s IH]; [done|].
  simpl. case_decide; [done|]. intros Hs.
  rewrite split_char_cons, decide_False by done. by rewrite IH.
Qed.

Lemma split_char_app c s t :
  free_of c s = true →
  split (s +:+ String c t) (String c "") = s :: split t (String c "").
Proof.
  induction s as [|a s IH]; sapp.
  - intros _. by rewrite split_char_cons, decide_True.
  - case_decide; [done|]. intros Hs.
    rewrite split_char_cons, decide_False by done. by rewrite IH.
Qed.

Lemma split_join c toks :
  toks ≠ [] → Forall (λ t, free_of c t = true) toks →
  split (join (String c "") toks) (String c "") = toks.
Proof.
  induction toks as [|t toks IH]; [done|]. intros _ Hall.
  apply Forall_cons in Hall as [Ht Hall].
  destruct toks as [|t' toks]; simpl.
  - by apply split_char_free.
  - sapp. rewrite split_char_app by done. f_equal. by apply IH.
Qed.

Lemma split_char_length c s : length (split s (String c "")) = S (count c s).
Proof.
  induction s as [|a s IH]; [done|].
  rewrite split_char_cons. simpl.
  destruct (decide (c = a)) as [->|]; simpl.
  - by rewrite decide_True, IH.
  - rewrite decide_False by done. simpl.
    pose proof (split_go_nonempty (String c "") 0 s) as Hne. unfold split in *.
    destruct (split_go (String c "") 0 s); [done|]. simpl in *. done.
Qed.

Lemma free_of_count c s : free_of c s = true ↔ count c s = 0.
Proof.
  induction s as [|a s IH]; simpl; [done|].
  case_decide; simpl; [split; [done|lia]|done].
Qed.

Lemma contains_char c s : contains (String c "") s = negb (free_of c s).
Proof.
  induction s as [|a s IH]; simpl; [done|].
  repeat case_decide; subst; try done.
Qed.

Lemma count_app c s t : count c (s +:+ t) = count c s + count c t.
Proof. induction s; sapp; [done|]. rewrite IHs. lia. Qed.

Lemma free_of_app c s t :
  free_of c (s +:+ t) = free_of c s && free_of c t.
Proof. induction s; sapp; [done|]. by case_decide. Qed.



(** * Facts about the header scanner *)

Lemma partition_eq s sep :
  partition s sep =
    if startswith s sep then Some ("", drop (len sep) s)
    else match s with
         | "" => None
         | String c s' =>
             match partition s' sep with
             | Some (a, b) => Some (String c a, b)
             | None => None
             end
         end.
Proof. by destruct s. Qed.

Lemma partition_len s sep a b : partition s sep = Some (a, b) → len sep ≤ len s.
Proof.
  revert a b. induction s as [|c s IH]; intros a b; rewrite partition_eq.
  - destruct (startswith "" sep) eqn:E; [|done]. intros _. by apply startswith_len.
  - destruct (startswith (String c s) sep) eqn:E.
    + intros _. by apply startswith_len.
    + destruct (partition s sep) as [[a' b']|] eqn:E' in |- *; [|done].
      intros _. apply IH in E'. simpl. lia.
Qed.

Lemma partition_app x y sep a b :
  partition x sep = Some (a, b) → partition (x +:+ y) sep = Some (a, b +:+ y).
Proof.
  revert a b. induction x as [|c x IH]; intros a b; rewrite partition_eq.
  - destruct (startswith "" sep) eqn:E; [|done]. intros [= <- <-].
    rewrite partition_eq, (startswith_app_l _ _ _ E).
    rewrite drop_app by by apply startswith_len. done.
  - destruct (startswith (String c x) sep) eqn:E.
    + intros [= <- <-].
      rewrite partition_eq, (startswith_app_l _ _ _ E).
      rewrite drop_app by by apply startswith_len. done.
    + destruct (partition x sep) as [[a' b']|] eqn:E' in |- *; [|done].
      intros [= <- <-]. rewrite str_app_cons, partition_eq.
      destruct (startswith (String c (x +:+ y)) sep) eqn:E2.
      * rewrite <-str_app_cons in E2. apply startswith_app_inv in E2; [congruence|].
        apply partition_len in E'. simpl. lia.
      * by rewrite (IH _ _ E').
Qed.

Lemma replace_csq_tail body :
  free_of newline body = true → replace (body +:+ csq_tail) csq_tail "" = body.
Proof.
  unfold replace. induction body as [|c body IH]; [done|].
  intros Hfree. simpl in Hfree. case_decide; [done|].
  rewrite str_app_cons.
  assert (startswith (String c (body +:+ csq_tail)) csq_tail = false) as Hs.
  { destruct body as [|c2 [|c3 body]]; sapp; repeat case_decide; simplify_eq; done. }
  cbn [replace_go]. rewrite Hs. f_equal. by apply IH.
Qed.

Lemma join_free c sep toks :
  free_of c sep = true → Forall (λ t, free_of c t = true) toks →
  free_of c (join sep toks) = true.
Proof.
  intros Hsep. induction 1 as [|t toks Ht Hall IH]; [done|].
  destruct toks as [|t' toks]; [done|].
  change (join sep (t :: t' :: toks)) with (t +:+ sep +:+ join sep (t' :: toks)).
  by rewrite !free_of_app, Ht, Hsep, IH.
Qed.

Lemma csqkeys_loop_skip before rest :
  Forall (λ l, startswith l "##INFO=<ID=CSQ" = false) before →
  csqkeys_loop (before ++ rest) = csqkeys_loop rest.
Proof.
  induction 1 as [|l before Hl _ IH]; [done|].
  rewrite <-app_comm_cons. cbn [csqkeys_loop]. by rewrite Hl.
Qed.

Lemma csqkeys_loop_line pre keys line rest :
  line = pre +:+ "Format: " +:+ join "|" keys +:+ csq_tail →
  startswith line "##INFO=<ID=CSQ" = true →
  partition (pre +:+ "Format: ") "Format: " = Some (pre, "") →
  keys ≠ [] →
  Forall (λ k, free_of "|" k = true ∧ free_of newline k = true) keys →
  csqkeys_loop (line :: rest) = Ok (PList keys).
Proof.
  intros -> Hstart Hfirst Hne Hkeys. cbn [csqkeys_loop]. rewrite Hstart.
  unfold split1. rewrite <-str_app_assoc.
  rewrite (partition_app _ _ _ _ _ Hfirst).
  cbn -[replace split String.append]. rewrite str_app_nil_l, replace_csq_tail.
  - rewrite split_join; [done..|]. eapply Forall_impl; [done|]. by intros ? [??].
  - apply join_free; [done|]. eapply Forall_impl; [done|]. by intros ? [??].
Qed.

(** * Facts about dictionaries built from pairs *)

Section Dict.
Context {V : Type}.
Implicit Types (l : list (string * V)) (k : string) (v : V).

Lemma dict_of_snoc l k v : dict_of (l ++ [(k, v)]) = <[k := v]> (dict_of l).
Proof. unfold dict_of. by rewrite foldl_app. Qed.

Lemma dict_of_dom l : dom (dict_of l) = list_to_set (l.*1).
Proof.
  induction l as [|[k v] l IH] using rev_ind; [by apply dom_empty_L|].
  rewrite dict_of_snoc, dom_insert_L, IH, fmap_app, list_to_set_app_L.
  simpl. by rewrite (right_id_L ∅ (∪)), (comm_L (∪)).
Qed.

Lemma dict_of_lookup l i k v :
  NoDup (l.*1) → l !! i = Some (k, v) → dict_of l !! k = Some v.
Proof.
  revert i. induction l as [|[k' v'] l IH] using rev_ind; intros i; [done|].
  rewrite fmap_app, dict_of_snoc. simpl.
  intros [Hnd [Hk' _]]%NoDup_app Hi.
  destruct (decide (i < length l)) as [Hlt|Hge].
  - rewrite lookup_app_l in Hi by done.
    rewrite lookup_insert_ne; [by eapply IH|].
    intros ->. apply (Hk' k); [|apply list_elem_of_singleton; done].
    apply list_elem_of_fmap. exists (k, v). split; [done|].
    by eapply list_elem_of_lookup_2.
  - rewrite lookup_app_r in Hi by lia.
    destruct (i - length l) as [|n]; [|done].
    simpl in Hi. injection Hi as -> ->. by rewrite lookup_insert_eq.
Qed.
End Dict.

Lemma zip_fst_take {A B} (ks : list A) (vs : list B) :
  (zip ks vs).*1 = take (length vs) ks.
Proof.
  revert vs. induction ks as [|k ks IH]; intros [|v vs]; simpl; try done.
  by rewrite IH.
Qed.

Lemma dict_zip_dom keys values k :
  is_Some (dict_zip keys values !! k) ↔ k ∈ take (length values) keys.
Proof.
  unfold dict_zip. rewrite <-elem_of_dom, dict_of_dom, zip_fst_take.
  by rewrite elem_of_list_to_set.
Qed.

Lemma dict_zip_lookup keys values i k :
  NoDup keys → keys !! i = Some k → dict_zip keys values !! k = values !! i.
Proof.
  intros Hnd Hk. destruct (values !! i) as [v|] eqn:Hv.
  - eapply (dict_of_lookup _ i).
    + rewrite zip_fst_take. eapply sublist_NoDup; [done|apply sublist_take].
    + rewrite lookup_zip_with, Hk. simpl. by rewrite Hv.
  - apply eq_None_not_Some. rewrite dict_zip_dom.
    intros [j Hj]%list_elem_of_lookup.
    apply lookup_take_Some in Hj as [Hj Hlt].
    assert (j = i) as -> by by eapply NoDup_lookup.
    apply lookup_ge_None in Hv. lia.
Qed.

(** * Facts about the error monad and the INFO decoder *)

Lemma bind_Ok {A B} (m : result A) (f : A → result B) b :
  (m ≫= f) = Ok b ↔ ∃ a, m = Ok a ∧ f a = Ok b.
Proof. destruct m; simpl; [|split; [done|by intros (?&?&?)]]. split; [eauto|]. by intros (?&[= ->]&?). Qed.

Lemma bind_Ok_l {A B} (a : A) (f : A → result B) : (Ok a ≫= f) = f a.
Proof. done. Qed.

Lemma traverse_Ok {A B} (f : A → result B) l out :
  traverse f l = Ok out ↔ Forall2 (λ x y, f x = Ok y) l out.
Proof.
  revert out. induction l as [|x l IH]; intros out; simpl.
  - split; [by intros [= <-]; constructor|by inversion 1].
  - rewrite bind_Ok. split.
    + intros (y & Hy & (ys & Hys & [= <-])%bind_Ok). constructor; [done|by apply IH].
    + inversion 1 as [|? y ? ys Hy Hys]; subst. exists y. split; [done|].
      apply bind_Ok. exists ys. split; [by apply IH|done].
Qed.

Lemma traverse_Raise {A B} (f : A → result B) l e :
  traverse f l = Raise e → ∃ x, x ∈ l ∧ f x = Raise e.
Proof.
  induction l as [|x l IH]; [done|]. simpl.
  destruct (f x) as [y|e'] eqn:Hx; simpl.
  - destruct (traverse f l) as [ys|e'']; [done|]. simpl. intros [= <-].
    destruct IH as (x' & ? & ?); [done|]. exists x'. split; [by right|done].
  - intros [= <-]. exists x. split; [by left|done].
Qed.

Lemma traverse_succeeds {A B} (f : A → result B) l :
  succeeds (traverse f l) ↔ Forall (λ x, succeeds (f x)) l.
Proof.
  induction l as [|x l IH]; simpl.
  - split; [constructor|by eexists].
  - rewrite Forall_cons, <-IH. unfold succeeds. split.
    + intros (out & (y & Hy & (ys & Hys & _)%bind_Ok)%bind_Ok). eauto.
    + intros [[y Hy] [ys Hys]]. exists (y :: ys). by rewrite Hy, Hys.
Qed.

Lemma info_pair_succeeds item :
  succeeds (info_pair item) ↔ count "=" item = 1.
Proof.
  unfold info_pair. pose proof (split_char_length "=" item) as Hlen.
  destruct (split item "=") as [|a [|b [|c l]]]; simpl in Hlen; unfold succeeds;
    split; try (intros [? [=]]); try lia; eauto.
Qed.

Lemma info_token_count i :
  count "=" (if negb (contains "=" i) then i +:+ "=nan" else i) = 1 ↔ count "=" i ≤ 1.
Proof.
  rewrite contains_char, negb_involutive.
  destruct (free_of "=" i) eqn:E.
  - apply free_of_count in E. rewrite count_app, E. simpl. lia.
  - assert (count "=" i ≠ 0) by (intros ?%free_of_count; congruence). lia.
Qed.

Lemma info_dict_of_succeeds x :
  succeeds (info_dict_of (info_tokens x)) ↔
  Forall (λ t, count "=" t ≤ 1) (split x ";").
Proof.
  unfold info_dict_of, info_tokens.
  transitivity (succeeds (traverse info_pair
    (map (λ i, if negb (contains "=" i) then i +:+ "=nan" else i) (split x ";")))).
  { unfold succeeds. split.
    - intros [d (pairs & -> & _)%bind_Ok]. eauto.
    - intros [pairs ->]. simpl. eauto. }
  rewrite traverse_succeeds, Forall_map.
  apply Forall_iff. intros t. simpl. by rewrite info_pair_succeeds, info_token_count.
Qed.

Lemma info_pair_kv k v :
  free_of "=" k = true → free_of "=" v = true →
  info_pair (k +:+ "=" +:+ v) = Ok (k, IStr v).
Proof.
  intros Hk Hv. unfold info_pair. sapp.
  by rewrite split_char_app, split_char_free.
Qed.

Lemma contains_eq_kv k v : contains "=" (k +:+ "=" +:+ v) = true.
Proof.
  rewrite contains_char, free_of_app. sapp. by rewrite andb_false_r.
Qed.

Lemma info_decode_k1v1_k2_k3v3 k1 v1 k2 k3 v3 :
  Forall (λ t, free_of ";" t = true ∧ free_of "=" t = true) [k1; v1; k2; k3; v3] →
  info_dict_of (info_tokens (k1 +:+ "=" +:+ v1 +:+ ";" +:+ k2 +:+ ";" +:+ k3 +:+ "=" +:+ v3))
  = Ok (<[k3 := IStr v3]> (<[k2 := IStr "nan"]> (<[k1 := IStr v1]> ∅))).
Proof.
  intros Hall. repeat (apply Forall_cons in Hall as [[??] Hall]).
  unfold info_tokens.
  replace (k1 +:+ "=" +:+ v1 +:+ ";" +:+ k2 +:+ ";" +:+ k3 +:+ "=" +:+ v3)
    with (join ";" [k1 +:+ "=" +:+ v1; k2; k3 +:+ "=" +:+ v3])
    by (cbn [join]; by rewrite !str_app_assoc).
  rewrite split_join; [|done|].
  2:{ repeat constructor; rewrite ?free_of_app; sapp;
      repeat match goal with H : _ = true |- _ => rewrite H end; done. }
  cbn [map]. rewrite !contains_eq_kv, (contains_char "=" k2).
  replace (free_of "=" k2) with true by done. cbn [negb].
  unfold info_dict_of. cbn [traverse].
  change (k2 +:+ "=nan") with (k2 +:+ "=" +:+ "nan").
  by rewrite !info_pair_kv.
Qed.

(** * Facts about the transcript resolver *)

Lemma find_loop_last field ids acc l :
  Forall (λ r, is_Some (r !! field)) l →
  find_loop field ids acc l =
    Ok (match last_match field ids l with Some r => Some r | None => acc end).
Proof.
  unfold last_match. intros Hall. revert acc.
  induction Hall as [|r l [f Hf] _ IH]; intros acc; [done|].
  cbn [find_loop List.filter]. unfold getitem, matches_id at 1. rewrite Hf. simpl.
  case_decide as Hin.
  - rewrite bool_decide_true by done. rewrite IH, last_cons.
    by destruct (last _).
  - rewrite bool_decide_false by done. by rewrite IH.
Qed.

Lemma last_match_Some field ids l r :
  last_match field ids l = Some r ↔
  ∃ l1 l2, l = l1 ++ r :: l2 ∧ matches_id field ids r = true
           ∧ Forall (λ r', matches_id field ids r' = false) l2.
Proof.
  unfold last_match. split.
  - induction l as [|x l IH]; [done|]. simpl.
    destruct (matches_id field ids x) eqn:Hx.
    + rewrite last_cons. destruct (last (List.filter _ l)) as [y|] eqn:Hl.
      * intros [= ->]. destruct (IH eq_refl) as (l1 & l2 & -> & ? & ?).
        by exists (x :: l1), l2.
      * intros [= ->]. exists [], l. split_and!; [done..|].
        apply last_None in Hl. apply Forall_forall. intros y Hy.
        destruct (matches_id field ids y) eqn:Hm; [|done].
        assert (y ∈ List.filter (matches_id field ids) l) as Hin
          by (apply list_elem_of_In, filter_In; split; [by apply list_elem_of_In|done]).
        rewrite Hl in Hin. by apply not_elem_of_nil in Hin.
    + intros (l1 & l2 & -> & ? & ?)%IH. by exists (x :: l1), l2.
  - intros (l1 & l2 & -> & Hr & Hl2).
    rewrite List.filter_app. simpl. rewrite Hr.
    replace (List.filter (matches_id field ids) l2) with (@nil subrecord).
    + by rewrite last_snoc.
    + symmetry. induction Hl2 as [|y l2 Hy _ IH]; [done|]. simpl. by rewrite Hy.
Qed.

Lemma last_match_size field ids l r : last_match field ids l = Some r → 0 < size r.
Proof.
  intros (l1 & l2 & _ & Hr & _)%last_match_Some. unfold matches_id in Hr.
  destruct (r !! field) eqn:Hf; [|done].
  destruct (decide (size r = 0)) as [Hz|]; [|lia].
  apply map_size_empty_iff in Hz. subst. by rewrite lookup_empty in Hf.
Qed.

Lemma find_result_last field ids l :
  find_result (match last_match field ids l with Some r => Some r | None => None end)
  = match last_match field ids l with Some r => CRec r | None => CNaN end.
Proof.
  destruct (last_match field ids l) as [r|] eqn:E; [|done].
  apply last_match_size in E. unfold find_result. simpl.
  by destruct (Nat.ltb_spec 0 (size r)); [|lia].
Qed.

(** A sub-record without the field makes the subscript raise. *)
Lemma find_loop_missing_field field ids acc l1 r l2 :
  Forall (λ r', is_Some (r' !! field)) l1 → r !! field = None →
  find_loop field ids acc (l1 ++ r :: l2) = Raise KeyError.
Proof.
  intros Hall Hr. revert acc.
  induction Hall as [|r' l1 [f Hf] _ IH]; intros acc.
  - cbn [app find_loop]. unfold getitem. by rewrite Hr.
  - rewrite <-app_comm_cons. cbn [find_loop]. unfold getitem. rewrite Hf. simpl.
    by case_decide.
Qed.

(** * Facts about the case identifier scan *)

Lemma getidx_split_0 line c : ∃ x, getidx (split line (String c "")) 0 = Ok x.
Proof.
  pose proof (split_char_length c line) as Hlen. unfold getidx.
  destruct (split line (String c "")) as [|x l]; [done|]. by exists x.
Qed.

Lemma getidx_split_1 line c :
  free_of c line = false → ∃ x, getidx (split line (String c "")) 1 = Ok x.
Proof.
  intros Hfree. pose proof (split_char_length c line) as Hlen.
  assert (count c line ≠ 0) by (intros ?%free_of_count; congruence).
  unfold getidx. destruct (split line (String c "")) as [|x [|y l]]; simpl in *; [lia..|].
  by exists y.
Qed.

Lemma getidx_split_1_free line c :
  free_of c line = true → getidx (split line (String c "")) 1 = Raise IndexError.
Proof. intros Hfree. by rewrite split_char_free. Qed.

Lemma case_id_loop_succeeds lines identifier sample_id :
  Forall (λ l, startswith l "##SAMPLE=<ID=TUMOR" = true → free_of "," l = false) lines →
  succeeds (case_id_loop identifier sample_id lines).
Proof.
  intros Hall. revert identifier sample_id.
  induction Hall as [|line lines Hline _ IH]; intros i s; [by eexists|].
  cbn [case_id_loop].
  destruct (startswith line "##"); [|by eexists].
  destruct (startswith line "##INDIVIDUAL").
  - destruct (getidx_split_0 line ",") as [x ->]. simpl.
    destruct (both_found _ _); [by eexists|apply IH].
  - destruct (startswith line "##SAMPLE=<ID=TUMOR"); [|apply IH].
    destruct (getidx_split_1 line ",") as [x ->]; [by apply Hline|]. simpl.
    destruct (both_found _ _); [by eexists|apply IH].
Qed.

Lemma case_id_loop_nonmeta pre line rest identifier sample_id :
  startswith line "##" = false →
  case_id_loop identifier sample_id (pre ++ line :: rest) =
  case_id_loop identifier sample_id pre.
Proof.
  intros Hline. revert identifier sample_id.
  induction pre as [|l pre IH]; intros i s.
  - cbn [app case_id_loop]. by rewrite Hline.
  - rewrite <-app_comm_cons. cbn [case_id_loop].
    destruct (startswith l "##"); [|done].
    destruct (startswith l "##INDIVIDUAL").
    + destruct (getidx _ 0); [|done]. simpl. by destruct (both_found _ _).
    + destruct (startswith l "##SAMPLE=<ID=TUMOR"); [|done].
      destruct (getidx _ 1); [|done]. simpl. by destruct (both_found _ _).
Qed.

Lemma case_id_loop_identifier lines identifier sample_id i s :
  Forall (λ l, startswith l "##INDIVIDUAL" = false) lines →
  case_id_loop identifier sample_id lines = Ok (i, s) → i = identifier.
Proof.
  intros Hall. revert sample_id.
  induction Hall as [|l lines Hl _ IH]; intros s0; [by intros [= <- _]|].
  cbn [case_id_loop]. rewrite Hl.
  destruct (startswith l "##"); [|by intros [= <- _]].
  destruct (startswith l "##SAMPLE=<ID=TUMOR"); [|apply IH].
  destruct (getidx _ 1); [|done]. simpl.
  destruct (both_found _ _); [by intros [= <- _]|apply IH].
Qed.

Lemma case_id_loop_sample lines identifier sample_id i s :
  Forall (λ l, startswith l "##SAMPLE=<ID=TUMOR" = false) lines →
  case_id_loop identifier sample_id lines = Ok (i, s) → s = sample_id.
Proof.
  intros Hall. revert identifier.
  induction Hall as [|l lines Hl _ IH]; intros i0; [by intros [= _ <-]|].
  cbn [case_id_loop]. rewrite Hl.
  destruct (startswith l "##"); [|by intros [= _ <-]].
  destruct (startswith l "##INDIVIDUAL"); [|apply IH].
  destruct (getidx _ 0); [|done]. simpl.
  destruct (both_found _ _); [by intros [= _ <-]|apply IH].
Qed.

Lemma case_id_loop_stops lines rest identifier sample_id i s :
  both_found identifier sample_id = false →
  case_id_loop identifier sample_id lines = Ok (i, s) →
  both_found i s = true →
  case_id_loop identifier sample_id (lines ++ rest) = Ok (i, s).
Proof.
  revert identifier sample_id.
  induction lines as [|l lines IH]; intros i0 s0 Hinit.
  { intros [= <- <-] ?. congruence. }
  rewrite <-app_comm_cons. cbn [case_id_loop].
  destruct (startswith l "##"); [|intros [= <- <-] ?; congruence].
  destruct (startswith l "##INDIVIDUAL").
  - destruct (getidx _ 0); [|done]. simpl.
    destruct (both_found (replace a "##INDIVIDUAL=<NAME=" "") s0) eqn:E; [done|].
    by apply IH.
  - destruct (startswith l "##SAMPLE=<ID=TUMOR"); [|by apply IH].
    destruct (getidx _ 1); [|done]. simpl.
    destruct (both_found i0 (replace a "NAME=" "")) eqn:E; [done|]. by apply IH.
Qed.

Lemma getidx_Raise {A} (l : list A) n e : getidx l n = Raise e → e = IndexError.
Proof. unfold getidx. destruct (l !! n); congruence. Qed.

Lemma case_id_loop_Raise lines identifier sample_id e :
  case_id_loop identifier sample_id lines = Raise e → e = IndexError.
Proof.
  revert identifier sample_id.
  induction lines as [|l lines IH]; intros i s; [done|].
  cbn [case_id_loop].
  destruct (startswith l "##"); [|done].
  destruct (startswith l "##INDIVIDUAL").
  - destruct (getidx _ 0) eqn:E; simpl.
    + destruct (both_found _ _); [done|apply IH].
    + intros [= <-]. by eapply getidx_Raise.
  - destruct (startswith l "##SAMPLE=<ID=TUMOR"); [|apply IH].
    destruct (getidx _ 1) eqn:E; simpl.
    + destruct (both_found _ _); [done|apply IH].
    + intros [= <-]. by eapply getidx_Raise.
Qed.

(** * Facts about traversals and the table pipelines *)

Lemma traverse_ext {A B} (f g : A → result B) l :
  (∀ x, f x = g x) → traverse f l = traverse g l.
Proof. intros Hfg. induction l as [|x l IH]; [done|]. simpl. by rewrite Hfg, IH. Qed.

Lemma traverse_app {A B} (f : A → result B) l1 l2 :
  traverse f (l1 ++ l2) =
    y1 ← traverse f l1; y2 ← traverse f l2; Ok (y1 ++ y2).
Proof.
  induction l1 as [|x l1 IH]; simpl.
  - by destruct (traverse f l2).
  - destruct (f x); [|done]. simpl. rewrite IH.
    destruct (traverse f l1); [|done]. simpl. by destruct (traverse f l2).
Qed.

(** Two column-wise traversals in a row succeed exactly when the row-wise
    composition does, with the same result. *)
Lemma traverse_kleisli {A B C D} (f : A → result B) (g : B → result C)
    (k : list C → result D) l out :
  (l' ← traverse f l; l'' ← traverse g l'; k l'') = Ok out ↔
  (l'' ← traverse (λ x, f x ≫= g) l; k l'') = Ok out.
Proof.
  assert (∀ l'', (∃ l', traverse f l = Ok l' ∧ traverse g l' = Ok l'') ↔
                 traverse (λ x, f x ≫= g) l = Ok l'') as Hmid.
  { intros l''. rewrite traverse_Ok. split.
    - intros (l' & H1%traverse_Ok & H2%traverse_Ok).
      revert l'' H2. induction H1 as [|x y l l' Hxy _ IH]; intros l'' H2.
      + inversion H2. constructor.
      + inversion H2 as [|? z ? zs Hz Hzs]; subst. constructor; [|by apply IH].
        by rewrite Hxy.
    - induction 1 as [|x z l zs Hxz _ (l' & H1 & H2)].
      + by exists [].
      + apply bind_Ok in Hxz as (y & Hy & Hz). exists (y :: l'). simpl.
        by rewrite Hy, H1, Hz, H2. }
  rewrite !bind_Ok. split.
  - intros (l' & H1 & (l'' & H2 & Hk)%bind_Ok). exists l''. split; [|done].
    apply Hmid. eauto.
  - intros (l'' & (l' & H1 & H2)%Hmid & Hk). exists l'. split; [done|].
    apply bind_Ok. eauto.
Qed.

Lemma row_apply_compose col (f g : cell → result cell) r :
  row_apply col col f r ≫= row_apply col col g =
  row_apply col col (λ c, f c ≫= g) r.
Proof.
  unfold row_apply, getitem. destruct (r !! col) as [c|]; [|done]. simpl.
  destruct (f c) as [v|]; [|done]. simpl.
  rewrite lookup_insert_eq. simpl. destruct (g v); [|done]. simpl.
  by rewrite insert_insert_eq.
Qed.

Lemma apply_col_compose {D} col (f g : cell → result cell)
    (k : frame → result D) df out :
  (df' ← apply_col col col f df; df'' ← apply_col col col g df'; k df'') = Ok out ↔
  (df'' ← apply_col col col (λ c, f c ≫= g) df; k df'') = Ok out.
Proof.
  unfold apply_col. rewrite traverse_kleisli.
  by rewrite (traverse_ext _ _ _ (row_apply_compose col f g)).
Qed.

Lemma bind_ret {A} (m : result A) : (m ≫= Ok) = m.
Proof. by destruct m. Qed.

Lemma apply_col_compose_last col (f g : cell → result cell) df out :
  (df' ← apply_col col col f df; apply_col col col g df') = Ok out ↔
  apply_col col col (λ c, f c ≫= g) df = Ok out.
Proof.
  pose proof (apply_col_compose col f g Ok df out) as H.
  rewrite bind_ret in H. rewrite <-H, !bind_Ok.
  apply exist_proper. intros df'. by rewrite bind_ret.
Qed.

Lemma cell_chain_text keys variant variant_class x :
  cell_chain keys variant variant_class (CStr x)
  = d ← decode_filter_info keys variant variant_class x; Ok (CInfo d).
Proof.
  unfold decode_filter_info, cell_chain. simpl.
  destruct (info_dict_of (info_tokens x)) as [d|]; [|done]. simpl.
  destruct (update_value d "CSQ" keys) as [d'|]; [|done]. simpl.
  done.
Qed.

Lemma row_chain_passthrough keys variant variant_class r r' :
  row_apply "INFO" "INFO" (cell_chain keys variant variant_class) r = Ok r'
  ↔ vcf_passthrough keys variant variant_class r r'.
Proof.
  unfold row_apply, vcf_passthrough, getitem. split.
  - destruct (r !! "INFO") as [c|]; [|done]. simpl.
    intros (v & Hv & [= <-])%bind_Ok.
    destruct c as [x| | | | |]; try done.
    rewrite cell_chain_text in Hv. apply bind_Ok in Hv as (d & Hd & [= <-]).
    by exists x, d.
  - intros (x & d & -> & Hd & ->). simpl.
    rewrite cell_chain_text, Hd. done.
Qed.

Lemma Forall2_iff_rel {A B} (P Q : A → B → Prop) l k :
  (∀ x y, P x y ↔ Q x y) → Forall2 P l k ↔ Forall2 Q l k.
Proof.
  intros H. split; intros HF; (eapply Forall2_impl; [exact HF|]);
    intros ??; by apply H.
Qed.

Lemma vcf_filtered_Ok sc keys df variant variant_class out :
  vcf_filtered sc keys df variant variant_class = Ok out ↔
  ∃ kept, filterM (vcf_mask sc variant) df = Ok kept
          ∧ Forall2 (vcf_passthrough keys variant variant_class) kept out.
Proof.
  unfold vcf_filtered. rewrite bind_Ok.
  apply exist_proper. intros kept. apply and_iff_compat_l.
  rewrite apply_col_compose, apply_col_compose, apply_col_compose_last.
  unfold apply_col. rewrite traverse_Ok.
  apply Forall2_iff_rel. intros r r'. apply row_chain_passthrough.
Qed.

Lemma cell_chain_maf_text consequence x :
  cell_chain_maf consequence (CStr x)
  = filter_variants_maf (decode_all_effects x) consequence.
Proof. done. Qed.

Lemma row_chain_maf consequence r r' :
  row_apply "all_effects" "all_effects" (cell_chain_maf consequence) r = Ok r'
  ↔ maf_decoded consequence r r'.
Proof.
  unfold row_apply, maf_decoded, getitem. split.
  - destruct (r !! "all_effects") as [c|]; [|done]. simpl.
    intros (v & Hv & [= <-])%bind_Ok.
    destruct c as [x| | | | |]; try done. by exists x, v.
  - intros (x & c & -> & Hc & ->). simpl.
    by rewrite cell_chain_maf_text, Hc.
Qed.

Lemma maf_filtered_Ok df consequence out :
  maf_filtered df consequence = Ok out ↔
  ∃ mid, Forall2 (maf_decoded consequence) df mid
         ∧ out = dropna "all_effects" mid.
Proof.
  unfold maf_filtered. rewrite apply_col_compose, bind_Ok.
  apply exist_proper. intros mid. unfold apply_col. rewrite traverse_Ok.
  rewrite (Forall2_iff_rel _ _ _ _ (row_chain_maf consequence)).
  apply and_iff_compat_l. split; [by intros [= <-]|by intros ->].
Qed.

Lemma apply_col_app src dst f df1 df2 :
  apply_col src dst f (df1 ++ df2) =
    y1 ← apply_col src dst f df1; y2 ← apply_col src dst f df2; Ok (y1 ++ y2).
Proof. apply traverse_app. Qed.

Lemma apply_col_cons src dst f r df :
  apply_col src dst f (r :: df) =
    y ← row_apply src dst f r; ys ← apply_col src dst f df; Ok (y :: ys).
Proof. done. Qed.

(** A row whose cell becomes [NaN] leaves no trace after [dropna]. *)
Lemma apply_dropna_drop {D} src dst f (k : frame → result D) df1 r df2 c :
  r !! src = Some c → f c = Ok CNaN →
  (df ← apply_col src dst f (df1 ++ r :: df2); k (dropna dst df)) =
  (df ← apply_col src dst f (df1 ++ df2); k (dropna dst df)).
Proof.
  intros Hr Hc. rewrite !apply_col_app, apply_col_cons.
  assert (row_apply src dst f r = Ok (<[dst := CNaN]> r)) as ->
    by (unfold row_apply, getitem; by rewrite Hr; simpl; rewrite Hc).
  destruct (apply_col src dst f df1) as [y1|]; [|done]. simpl.
  destruct (apply_col src dst f df2) as [y2|]; [|done]. simpl.
  unfold dropna. rewrite !List.filter_app. simpl.
  by rewrite lookup_insert_eq.
Qed.

Lemma maf_filtered_drop df1 r df2 x consequence :
  r !! "all_effects" = Some (CStr x) →
  filter_variants_maf (decode_all_effects x) consequence = Ok CNaN →
  maf_filtered (df1 ++ r :: df2) consequence = maf_filtered (df1 ++ df2) consequence.
Proof.
  intros Hr Hx. unfold maf_filtered. rewrite !apply_col_app, apply_col_cons.
  assert (row_apply "all_effects" "all_effects" cell_effects r
          = Ok (<["all_effects" := CRecs (decode_all_effects x)]> r)) as ->
    by (unfold row_apply, getitem; by rewrite Hr).
  destruct (apply_col _ _ cell_effects df1) as [y1|]; [|done]. simpl.
  destruct (apply_col _ _ cell_effects df2) as [y2|]; [|done]. simpl.
  eapply (apply_dropna_drop _ _ _ Ok); [apply lookup_insert_eq|done].
Qed.

Lemma extend_drop src find df1 r df2 c :
  r !! src = Some c → find c = Ok CNaN →
  extend src find (df1 ++ r :: df2) = extend src find (df1 ++ df2).
Proof.
  intros Hr Hc. unfold extend.
  by apply (apply_dropna_drop src "Variant_INFO" find
              (λ df, df_variant ← json_normalize "Variant_INFO" df;
                     Ok (Joined (concat_drop "Variant_INFO" df df_variant)))
              df1 r df2 c).
Qed.

Lemma filterM_length {A} (p : A → result bool) l out :
  filterM p l = Ok out → length out ≤ length l.
Proof.
  revert out. induction l as [|x l IH]; intros out; simpl; [by intros [= <-]|].
  intros (b & _ & (ys & Hys%IH & [= <-])%bind_Ok)%bind_Ok.
  destruct b; simpl; lia.
Qed.

Lemma process_vcf_nil_Ok sc keys df variant variant_class t :
  process_vcf sc keys df variant variant_class [] = Ok t ↔
  ∃ kept out, filterM (vcf_mask sc variant) df = Ok kept
              ∧ Forall2 (vcf_passthrough keys variant variant_class) kept out
              ∧ t = Table out.
Proof.
  unfold process_vcf. simpl. rewrite bind_Ok. split.
  - intros (out & (kept & ? & ?)%vcf_filtered_Ok & [= <-]). by exists kept, out.
  - intros (kept & out & ? & ? & ->). exists out. split; [|done].
    apply vcf_filtered_Ok. by exists kept.
Qed.

Lemma process_maf_nil_Ok df variant consequence variant_class t :
  process_maf df variant consequence variant_class [] = Ok t ↔
  ∃ mid, Forall2 (maf_decoded consequence) df mid
         ∧ t = Table (dropna "all_effects" mid).
Proof.
  unfold process_maf. simpl. rewrite bind_Ok. split.
  - intros (out & (mid & ? & ->)%maf_filtered_Ok & [= <-]). by exists mid.
  - intros (mid & ? & ->). exists (dropna "all_effects" mid). split; [|done].
    apply maf_filtered_Ok. by exists mid.
Qed.

(** * The claims *)

(** C1.  Transcript resolver, last match wins.  For every sequence of
    sub-records that carry the transcript-identifier field and every
    identifier list, [find_variants] (field [Feature]) and
    [find_variants_maf] (field [Transcript_ID_all_effects]) return the last
    sub-record in iteration order whose identifier is in the list, and
    [NaN] when there is none, in particular on the empty sequence. *)
Theorem resolver_last_wins (ids : list string) (l : list subrecord) :
  (∀ d : info_dict,
      d !! "CSQ" = Some (ICsq l) →
      Forall (λ r, is_Some (r !! "Feature")) l →
      find_variants d ids =
        Ok (match last_match "Feature" ids l with
            | Some r => CRec r
            | None => CNaN
            end))
  ∧ (Forall (λ r, is_Some (r !! "Transcript_ID_all_effects")) l →
     find_variants_maf l ids =
       Ok (match last_match "Transcript_ID_all_effects" ids l with
           | Some r => CRec r
           | None => CNaN
           end)).
Proof.
  split.
  - intros d Hd Hall. unfold find_variants, getitem. rewrite Hd. simpl.
    rewrite find_loop_last by done. simpl. by rewrite find_result_last.
  - intros Hall. unfold find_variants_maf.
    rewrite find_loop_last by done. simpl. by rewrite find_result_last.
Qed.

(** The sub-records [{id:T1}, {id:T2}, {id:T1}], told apart by a second
    field, resolved against [{T1}]: the third one is returned. *)
Lemma resolver_last_wins_witness :
  find_variants {["CSQ" := ICsq (example_subs "Feature")]} ["T1"]
  = Ok (CRec (example_sub "Feature" "T1" "3"))
  ∧ find_variants_maf (example_subs "Transcript_ID_all_effects") ["T1"]
    = Ok (CRec (example_sub "Transcript_ID_all_effects" "T1" "3"))
  ∧ find_variants {["CSQ" := ICsq []]} ["T1"] = Ok CNaN.
Proof.
  split_and!.
  - etrans.
    + apply (proj1 (resolver_last_wins ["T1"] (example_subs "Feature")));
        [reflexivity|].
      repeat constructor; eexists; vm_compute; reflexivity.
    + vm_compute. reflexivity.
  - etrans.
    + apply (proj2 (resolver_last_wins ["T1"]
                      (example_subs "Transcript_ID_all_effects"))).
      repeat constructor; eexists; vm_compute; reflexivity.
    + vm_compute. reflexivity.
  - etrans.
    + apply (proj1 (resolver_last_wins ["T1"] [])); [reflexivity|constructor].
    + reflexivity.
Defined.

(** C2, as stated, fails: with the schema [A, B, C] and the sub-entry
    [x|y] the key [C] is absent from the decoded sub-record; no sentinel
    is stored for it. *)
Lemma decode_entry_omits_missing_counterexample :
  "C" ∈ iter (PList ["A"; "B"; "C"])
  ∧ decode_entry (PList ["A"; "B"; "C"]) "|" "x|y" !! "C" = None
  ∧ decode_entry (PList ["A"; "B"; "C"]) "|" "x|y" = <["B" := "y"]> {["A" := "x"]}.
Proof.
  split_and!.
  - simpl. set_solver.
  - vm_compute. reflexivity.
  - vm_compute. reflexivity.
Qed.

(** C2, amended.  Decoding a sub-entry zips the schema with the split
    values and stops at the shorter of the two: values beyond the schema
    length are dropped, and the decoded sub-record is defined exactly on
    the schema keys that have a value (the first [n] keys for [n] values);
    a key without a value is omitted.  With distinct schema keys, the key
    at position [i] maps to the value at position [i]. *)
Theorem decode_entry_zip (keys : pyseq) (sep entry : string) :
  (∀ k, is_Some (decode_entry keys sep entry !! k) ↔
        k ∈ take (length (PyStr.split entry sep)) (iter keys))
  ∧ (∀ i k, NoDup (iter keys) → iter keys !! i = Some k →
            decode_entry keys sep entry !! k = PyStr.split entry sep !! i).
Proof.
  split.
  - intros k. apply dict_zip_dom.
  - intros i k Hnd Hk. by apply dict_zip_lookup.
Qed.

Lemma decode_entry_zip_witness :
  decode_entry (PList ["A"; "B"; "C"]) "|" "x|y|z|w" !! "B" = Some "y"
  ∧ decode_entry (PList ["A"; "B"; "C"]) "|" "x|y" !! "C" = None.
Proof.
  split.
  - etrans.
    + apply (proj2 (decode_entry_zip (PList ["A"; "B"; "C"]) "|" "x|y|z|w") 1 "B");
        [|reflexivity].
      apply (bool_decide_unpack _). vm_compute. exact I.
    + reflexivity.
  - etrans.
    + apply (proj2 (decode_entry_zip (PList ["A"; "B"; "C"]) "|" "x|y") 2 "C");
        [|reflexivity].
      apply (bool_decide_unpack _). vm_compute. exact I.
    + reflexivity.
Defined.

(** C3, as stated, fails: an INFO token that contains [=] twice makes the
    outer decode raise [ValueError]. *)
Lemma info_decode_raises_counterexample :
  info_dict_of (info_tokens "a=b=c") = Raise ValueError
  ∧ row_apply "INFO" "INFO" (cell_chain example_keys "missense_variant" "SNP")
      (example_row "a=b=c") = Raise ValueError.
Proof. split; vm_compute; reflexivity. Qed.

(** C3, amended.  The MAF decode of [all_effects] never fails, for any
    text: it yields one sub-record per [;]-separated sub-entry, each defined
    on schema keys only.  The VCF decode can fail: the outer decode of
    lines 286 to 289 succeeds exactly when every [;]-separated token
    contains [=] at most once and raises [ValueError] otherwise; the CSQ
    decode of [update_value] succeeds exactly when the outer mapping holds
    text under the key CSQ and raises [KeyError] when the key is absent. *)
Theorem embedded_decoding_failures (x : string) (keys : pyseq) (d : info_dict) :
  (succeeds (info_dict_of (info_tokens x)) ↔
     Forall (λ t, PyStr.count "=" t ≤ 1) (PyStr.split x ";"))
  ∧ (∀ e, info_dict_of (info_tokens x) = Raise e → e = ValueError)
  ∧ (succeeds (update_value d "CSQ" keys) ↔ ∃ s, d !! "CSQ" = Some (IStr s))
  ∧ (d !! "CSQ" = None → update_value d "CSQ" keys = Raise KeyError)
  ∧ cell_effects (CStr x) = Ok (CRecs (decode_all_effects x))
  ∧ length (decode_all_effects x) = length (PyStr.split x ";")
  ∧ Forall (λ r : subrecord, ∀ k, is_Some (r !! k) → k ∈ maf_keys)
      (decode_all_effects x).
Proof.
  split_and!.
  - apply info_dict_of_succeeds.
  - unfold info_dict_of. intros e.
    destruct (traverse info_pair (info_tokens x)) as [pairs|e'] eqn:E; [done|].
    simpl. intros [= <-]. apply traverse_Raise in E as (t & _ & Ht).
    unfold info_pair in Ht.
    destruct (split t "=") as [|? [|? [|? ?]]]; congruence.
  - unfold update_value, getitem, succeeds. split.
    + destruct (d !! "CSQ") as [[s|l]|]; simpl; [eauto|by intros [? ?]..].
    + intros [s ->]. simpl. eauto.
  - intros Hd. unfold update_value, getitem. by rewrite Hd.
  - done.
  - unfold decode_all_effects. by rewrite length_map.
  - unfold decode_all_effects. apply Forall_map, Forall_forall.
    intros entry _ k Hk. apply dict_zip_dom in Hk.
    by eapply subseteq_take.
Qed.

Lemma embedded_decoding_failures_witness :
  succeeds (info_dict_of (info_tokens "DP=10;IN_PON"))
  ∧ update_value ∅ "CSQ" example_keys = Raise KeyError.
Proof.
  split.
  - apply (proj1 (embedded_decoding_failures "DP=10;IN_PON" example_keys ∅)).
    repeat constructor.
  - apply (embedded_decoding_failures "DP=10;IN_PON" example_keys ∅).
    reflexivity.
Defined.

(** C4.  For every INFO text of the form [k1=v1;k2;k3=v3], where the keys
    and values contain neither [;] nor [=], the outer decode of lines 286
    to 289 yields exactly the mapping [{k1: v1, k2: 'nan', k3: v3}]. *)
Theorem info_decode_key_flag_key (k1 v1 k2 k3 v3 : string) :
  Forall (λ t, PyStr.free_of ";" t = true ∧ PyStr.free_of "=" t = true)
    [k1; v1; k2; k3; v3] →
  info_dict_of
    (info_tokens (k1 +:+ "=" +:+ v1 +:+ ";" +:+ k2 +:+ ";" +:+ k3 +:+ "=" +:+ v3))
  = Ok (<[k3 := IStr v3]> (<[k2 := IStr "nan"]> (<[k1 := IStr v1]> ∅))).
Proof. apply info_decode_k1v1_k2_k3v3. Qed.

Lemma info_decode_key_flag_key_witness :
  info_dict_of (info_tokens "DP=10;IN_PON;AF=0.5")
  = Ok (<["AF" := IStr "0.5"]> (<["IN_PON" := IStr "nan"]> (<["DP" := IStr "10"]> ∅))).
Proof.
  apply (info_decode_key_flag_key "DP" "10" "IN_PON" "AF" "0.5").
  repeat constructor.
Defined.

(** C5, as stated, fails on the VCF path: a row that passes the mask of
    line 283 and whose CSQ entry does not survive [filter_variants] keeps
    an INFO dictionary with an empty CSQ list, and with an empty [id_list]
    the row is in the output. *)
Lemma vcf_empty_filter_kept_counterexample :
  process_vcf literal_contains example_keys
    [example_row "DP=10;CSQ=T|missense_variant|ENST1|deletion"]
    "missense_variant" "SNP" []
  = Ok (Table [<["INFO" := CInfo (<["CSQ" := ICsq []]> {["DP" := IStr "10"]})]>
                 (example_row "DP=10;CSQ=T|missense_variant|ENST1|deletion")]).
Proof. vm_compute. reflexivity. Qed.

(** C5, amended.  On the MAF path, when [filter_variants_maf] keeps no
    sub-record the cell becomes [NaN], a non-empty result is kept as a
    list, and the row with the [NaN] cell is dropped on line 376.  On the
    VCF path [filter_variants] does not mark the field absent: INFO stays a
    dictionary whose CSQ value is the filtered list, empty or not, and a
    row with an empty CSQ list is dropped by the resolution stage, which
    runs when [id_list] is non-empty. *)
Theorem empty_filter_marking (consequence variant variant_class : string)
    (ids : list string) :
  (∀ l, filterM (keep_maf consequence) l = Ok [] →
        filter_variants_maf l consequence = Ok CNaN)
  ∧ (∀ l l', filterM (keep_maf consequence) l = Ok l' → l' ≠ [] →
             filter_variants_maf l consequence = Ok (CRecs l'))
  ∧ (∀ df1 r df2 x,
        r !! "all_effects" = Some (CStr x) →
        filterM (keep_maf consequence) (decode_all_effects x) = Ok [] →
        maf_filtered (df1 ++ r :: df2) consequence
        = maf_filtered (df1 ++ df2) consequence)
  ∧ (∀ d d', filter_variants d variant variant_class = Ok d' →
             ∃ l, d' !! "CSQ" = Some (ICsq l))
  ∧ (∀ df1 r df2 d,
        r !! "INFO" = Some (CInfo d) → d !! "CSQ" = Some (ICsq []) →
        extend "INFO" (cell_find ids) (df1 ++ r :: df2)
        = extend "INFO" (cell_find ids) (df1 ++ df2)).
Proof.
  assert (∀ l, filterM (keep_maf consequence) l = Ok [] →
               filter_variants_maf l consequence = Ok CNaN) as Hnan.
  { intros l Hl. unfold filter_variants_maf. by rewrite Hl. }
  split_and!.
  - done.
  - intros l l' Hl Hne. unfold filter_variants_maf. rewrite Hl. simpl.
    by destruct l'.
  - intros df1 r df2 x Hr Hx. eapply maf_filtered_drop; [done|by apply Hnan].
  - intros d d'. unfold filter_variants.
    intros (v & _ & (l & _ & (l' & _ & [= <-])%bind_Ok)%bind_Ok)%bind_Ok.
    exists l'. apply lookup_insert_eq.
  - intros df1 r df2 d Hr Hd. eapply extend_drop; [done|].
    simpl. unfold find_variants, getitem. by rewrite Hd.
Qed.

Lemma empty_filter_marking_witness :
  filter_variants_maf (decode_all_effects "TP53,synonymous_variant,p.A1A,ENST1")
    "missense_variant" = Ok CNaN
  ∧ filter_variants_maf (decode_all_effects "TP53,missense_variant,p.A1B,ENST1")
      "missense_variant"
    = Ok (CRecs (decode_all_effects "TP53,missense_variant,p.A1B,ENST1"))
  ∧ maf_filtered
      [example_maf_row "TP53,synonymous_variant,p.A1A,ENST1";
       example_maf_row "TP53,missense_variant,p.A1B,ENST1"] "missense_variant"
    = maf_filtered [example_maf_row "TP53,missense_variant,p.A1B,ENST1"]
        "missense_variant"
  ∧ (∃ l, (<["CSQ" := ICsq []]> ({["DP" := IStr "10"]} : info_dict)) !! "CSQ"
          = Some (ICsq l))
  ∧ extend "INFO" (cell_find ["ENST1"])
      [<["INFO" := CInfo {["CSQ" := ICsq []]}]> (example_row "")]
    = extend "INFO" (cell_find ["ENST1"]) [].
Proof.
  destruct (empty_filter_marking "missense_variant" "missense_variant" "SNP"
              ["ENST1"]) as (Hnan & Hlist & Hdrop & Hdict & Hresolve).
  split_and!.
  - apply Hnan. vm_compute. reflexivity.
  - apply Hlist; [vm_compute; reflexivity|done].
  - apply (Hdrop [] (example_maf_row "TP53,synonymous_variant,p.A1A,ENST1")
             [example_maf_row "TP53,missense_variant,p.A1B,ENST1"]
             "TP53,synonymous_variant,p.A1A,ENST1"); vm_compute; reflexivity.
  - apply (Hdict (<["CSQ" := ICsq [example_sub "Consequence" "stop_gained" "1"]]>
                    {["DP" := IStr "10"]})).
    vm_compute. reflexivity.
  - apply (Hresolve [] (<["INFO" := CInfo {["CSQ" := ICsq []]}]> (example_row "")) []
             {["CSQ" := ICsq []]}); vm_compute; reflexivity.
Defined.

(** C6.  When the first line that starts with [##INFO=<ID=CSQ] reads
    [... Format: A|B|C] followed by a double quote, [>] and a line feed,
    [csqkeys] returns the list [[A, B, C]] in that order (the keys contain
    neither [|] nor a line feed, and [Format: ] does not occur earlier in
    the line); when no line starts with [##INFO=<ID=CSQ] it returns the
    empty string, an empty sequence. *)
Theorem csqkeys_declared_schema (gunzip : string → result string) (f : file)
    (text : string) :
  fn_open gunzip f = Ok text →
  (∀ before pre keys after,
      readlines text
      = before ++ (pre +:+ "Format: " +:+ PyStr.join "|" keys +:+ csq_tail) :: after →
      Forall (λ l, PyStr.startswith l "##INFO=<ID=CSQ" = false) before →
      PyStr.startswith pre "##INFO=<ID=CSQ" = true →
      PyStr.partition (pre +:+ "Format: ") "Format: " = Some (pre, "") →
      keys ≠ [] →
      Forall (λ k, PyStr.free_of "|" k = true ∧ PyStr.free_of newline k = true) keys →
      csqkeys gunzip f = Ok (PList keys))
  ∧ (Forall (λ l, PyStr.startswith l "##INFO=<ID=CSQ" = false) (readlines text) →
     csqkeys gunzip f = Ok (PStr "") ∧ iter (PStr "") = []).
Proof.
  intros Hopen. unfold csqkeys. rewrite Hopen, bind_Ok_l. split.
  - intros before pre keys after -> Hbefore Hpre Hfirst Hne Hkeys.
    rewrite csqkeys_loop_skip by done.
    eapply csqkeys_loop_line; [done| |done..].
    by apply startswith_app_l.
  - intros Hnone. split; [|done].
    rewrite <-(app_nil_r (readlines text)). by rewrite csqkeys_loop_skip.
Qed.

Lemma csqkeys_declared_schema_witness :
  csqkeys example_gunzip example_plain = Ok example_keys
  ∧ csqkeys example_gunzip example_gz = Ok example_keys
  ∧ csqkeys example_gunzip example_bare = Ok (PStr "").
Proof.
  split_and!.
  - apply (proj1 (csqkeys_declared_schema example_gunzip example_plain
                    example_header eq_refl)
             ["##fileformat=VCFv4.2" +:+ String newline "";
              "##INDIVIDUAL=<NAME=C1,ID=7>" +:+ String newline "";
              "##SAMPLE=<ID=TUMOR,NAME=S9,X=1>" +:+ String newline ""]
             example_pre ["Allele"; "Consequence"; "Feature"; "VARIANT_CLASS"]
             ["#CHROM" +:+ String newline "";
              "DP=10;CSQ=T|missense_variant|ENST1|SNP" +:+ String newline ""]);
      try reflexivity; try done; repeat constructor.
  - apply (proj1 (csqkeys_declared_schema example_gunzip example_gz
                    example_header eq_refl)
             ["##fileformat=VCFv4.2" +:+ String newline "";
              "##INDIVIDUAL=<NAME=C1,ID=7>" +:+ String newline "";
              "##SAMPLE=<ID=TUMOR,NAME=S9,X=1>" +:+ String newline ""]
             example_pre ["Allele"; "Consequence"; "Feature"; "VARIANT_CLASS"]
             ["#CHROM" +:+ String newline "";
              "DP=10;CSQ=T|missense_variant|ENST1|SNP" +:+ String newline ""]);
      try reflexivity; try done; repeat constructor.
  - apply (proj2 (csqkeys_declared_schema example_gunzip example_bare
                    (raw example_bare) eq_refl)).
    repeat constructor.
Defined.

(** C7, as stated, fails: on a metadata line that starts with
    [##SAMPLE=<ID=TUMOR] and holds no comma, [case_id] raises
    [IndexError]. *)
Lemma case_id_raises_counterexample :
  case_id example_gunzip example_sample = Raise IndexError
  ∧ case_id_loop "" "" (readlines (raw example_sample)) = Raise IndexError.
Proof. split; vm_compute; reflexivity. Qed.

(** C7, amended.  [case_id] returns, for every sequence of lines in which
    each line starting with [##SAMPLE=<ID=TUMOR] holds a comma, and the
    only exception it can raise is [IndexError].  It scans metadata lines
    only: the lines from the first one that does not start with [##] on
    are not read.  It stops once both values are non-empty: lines after
    that point are not read.  A value whose declaring line never occurs is
    the empty string. *)
Theorem case_id_scan (lines : list string) :
  (Forall (λ l, PyStr.startswith l "##SAMPLE=<ID=TUMOR" = true →
                PyStr.free_of "," l = false) lines →
   succeeds (case_id_loop "" "" lines))
  ∧ (∀ e, case_id_loop "" "" lines = Raise e → e = IndexError)
  ∧ (∀ line rest, PyStr.startswith line "##" = false →
       case_id_loop "" "" (lines ++ line :: rest) = case_id_loop "" "" lines)
  ∧ (∀ i s rest, case_id_loop "" "" lines = Ok (i, s) → both_found i s = true →
       case_id_loop "" "" (lines ++ rest) = Ok (i, s))
  ∧ (∀ i s, Forall (λ l, PyStr.startswith l "##INDIVIDUAL" = false) lines →
       case_id_loop "" "" lines = Ok (i, s) → i = "")
  ∧ (∀ i s, Forall (λ l, PyStr.startswith l "##SAMPLE=<ID=TUMOR" = false) lines →
       case_id_loop "" "" lines = Ok (i, s) → s = "").
Proof.
  split_and!.
  - apply case_id_loop_succeeds.
  - intros e. apply case_id_loop_Raise.
  - intros line rest Hline. by apply case_id_loop_nonmeta.
  - intros i s rest Hok Hboth. by apply case_id_loop_stops.
  - intros i s Hall Hok. by eapply case_id_loop_identifier.
  - intros i s Hall Hok. by eapply case_id_loop_sample.
Qed.

Lemma case_id_scan_witness :
  succeeds (case_id_loop "" ""
              ["##INDIVIDUAL=<NAME=C1,ID=7>"; "##SAMPLE=<ID=TUMOR,NAME=S9,X=1>"])
  ∧ case_id_loop "" ""
      (["##INDIVIDUAL=<NAME=C1,ID=7>"; "##SAMPLE=<ID=TUMOR,NAME=S9,X=1>"]
         ++ ["##SAMPLE=<ID=TUMOR>"])
    = Ok ("C1", "S9")
  ∧ case_id_loop "" "" (["##fileformat=VCFv4.2"] ++ "#CHROM" :: ["##SAMPLE=<ID=TUMOR>"])
    = case_id_loop "" "" ["##fileformat=VCFv4.2"].
Proof.
  destruct (case_id_scan
              ["##INDIVIDUAL=<NAME=C1,ID=7>"; "##SAMPLE=<ID=TUMOR,NAME=S9,X=1>"])
    as (Hret & _ & _ & Hstop & _).
  destruct (case_id_scan ["##fileformat=VCFv4.2"]) as (_ & _ & Hmeta & _).
  split_and!.
  - apply Hret. repeat constructor; intros _; reflexivity.
  - apply Hstop; reflexivity.
  - apply Hmeta. reflexivity.
Defined.

(** C8.  With an empty [id_list] both pipelines return the filtered table
    and skip resolution and expansion.  VCF: the output has one row for
    every row that passed the mask of line 283, in order, equal to it
    except that INFO holds the decoded and filtered dictionary.  MAF: the
    output rows are the rows whose filtered [all_effects] is not [NaN], in
    order, equal to the input rows except for that column.  No
    [Variant_INFO] column and no joined block is added. *)
Theorem empty_id_list_passthrough (sc : string → cell → bool) (keys : pyseq)
    (df : frame) (variant consequence variant_class : string) (t : table) :
  (process_vcf sc keys df variant variant_class [] = Ok t ↔
   ∃ kept out, filterM (vcf_mask sc variant) df = Ok kept
               ∧ Forall2 (vcf_passthrough keys variant variant_class) kept out
               ∧ t = Table out)
  ∧ (process_maf df variant consequence variant_class [] = Ok t ↔
     ∃ mid, Forall2 (maf_decoded consequence) df mid
            ∧ t = Table (dropna "all_effects" mid)).
Proof. split; [apply process_vcf_nil_Ok|apply process_maf_nil_Ok]. Qed.

Lemma empty_id_list_passthrough_witness :
  process_vcf literal_contains example_keys
    [example_row "DP=10;CSQ=T|missense_variant|ENST1|SNP"] "missense_variant" "SNP" []
  = Ok (Table
          [<["INFO" := CInfo (<["CSQ" := ICsq [dict_zip (iter example_keys)
                                                 ["T"; "missense_variant"; "ENST1"; "SNP"]]]>
                                {["DP" := IStr "10"]})]>
             (example_row "DP=10;CSQ=T|missense_variant|ENST1|SNP")]).
Proof.
  apply (proj1 (empty_id_list_passthrough literal_contains example_keys
                  [example_row "DP=10;CSQ=T|missense_variant|ENST1|SNP"]
                  "missense_variant" "missense_variant" "SNP" _)).
  exists [example_row "DP=10;CSQ=T|missense_variant|ENST1|SNP"]. eexists.
  split_and!; [vm_compute; reflexivity| |reflexivity].
  repeat constructor. eexists _, _. split_and!; [reflexivity| |reflexivity].
  vm_compute. reflexivity.
Defined.

(** C9.  A gzip-compressed file whose path ends in [.gz] and an
    uncompressed file with the same decompressed text give the same result
    of [read_process_vcf] for the same remaining arguments, table and
    case identifiers alike.  The reader of pandas infers gzip for the
    first path and no compression for the second. *)
Theorem gz_and_plain_agree (gunzip : string → result string)
    (pd_infer : string → option (string → result string))
    (parse_vcf : string → nat → result frame) (sc : string → cell → bool)
    (f1 f2 : file) (variant variant_class : string) (ids : list string)
    (return_case_id : bool) :
  PyStr.endswith (path f1) ".gz" = true →
  PyStr.endswith (path f2) ".gz" = false →
  pd_infer (path f1) = Some gunzip →
  pd_infer (path f2) = None →
  gunzip (raw f1) = Ok (raw f2) →
  read_process_vcf gunzip pd_infer parse_vcf sc f1 variant variant_class ids
    return_case_id
  = read_process_vcf gunzip pd_infer parse_vcf sc f2 variant variant_class ids
      return_case_id.
Proof.
  intros Hgz Hplain Hinfer1 Hinfer2 Htext.
  assert (fn_open gunzip f1 = fn_open gunzip f2) as Hopen
    by (unfold fn_open; by rewrite Hgz, Hplain).
  assert (pd_open pd_infer f1 = pd_open pd_infer f2) as Hpd
    by (unfold pd_open; by rewrite Hinfer1, Hinfer2).
  unfold read_process_vcf, rows2skip, csqkeys, case_id, read_vcf.
  by rewrite Hopen, Hpd.
Qed.

Lemma gz_and_plain_agree_witness :
  read_process_vcf example_gunzip example_infer example_parse literal_contains
    example_gz "missense_variant" "SNP" ["ENST1"] true
  = read_process_vcf example_gunzip example_infer example_parse literal_contains
      example_plain "missense_variant" "SNP" ["ENST1"] true.
Proof.
  apply (gz_and_plain_agree example_gunzip example_infer example_parse
           literal_contains example_gz example_plain); reflexivity.
Defined.

(** C10.  The result of [read_process_maf] does not depend on the
    arguments [variant] and [variant_class]: for the same file,
    [consequence] and [id_list], any two choices of them give the same
    result. *)
Theorem maf_ignores_variant_and_class
    (pd_infer : string → option (string → result string))
    (parse_maf : string → result frame) (f : file)
    (variant1 variant2 consequence class1 class2 : string) (ids : list string) :
  read_process_maf pd_infer parse_maf f variant1 consequence class1 ids
  = read_process_maf pd_infer parse_maf f variant2 consequence class2 ids.
Proof. reflexivity. Qed.

(** * Further properties of the header scanner *)

Lemma rows2skip_loop_acc n lines :
  rows2skip_loop n lines = n + rows2skip_loop 0 lines.
Proof.
  revert n. induction lines as [|l lines IH]; intros n; cbn [rows2skip_loop]; [lia|].
  destruct (startswith l "##"); [|lia]. rewrite (IH (S n)), (IH 1). lia.
Qed.

(** X1.  [rows2skip] returns the number of leading lines that start with [##]:
    it counts up to the first line that does not, or to the end of the
    file when every line does. *)
Theorem rows2skip_counts_header (meta rest : list string) :
  Forall (λ l, PyStr.startswith l "##" = true) meta →
  (∀ l, head rest = Some l → PyStr.startswith l "##" = false) →
  rows2skip_loop 0 (meta ++ rest) = length meta.
Proof.
  intros Hmeta Hrest. induction Hmeta as [|l meta Hl _ IH].
  - destruct rest as [|l rest]; [done|]. cbn [app rows2skip_loop].
    by rewrite (Hrest l eq_refl).
  - rewrite <-app_comm_cons. cbn [rows2skip_loop]. rewrite Hl.
    rewrite rows2skip_loop_acc, IH. done.
Qed.

Lemma rows2skip_counts_header_witness :
  rows2skip_loop 0 (["##fileformat=VCFv4.2"; "##source=x"] ++ ["#CHROM"; "##late"]) = 2.
Proof.
  apply (rows2skip_counts_header ["##fileformat=VCFv4.2"; "##source=x"]
           ["#CHROM"; "##late"]).
  - repeat constructor.
  - intros l [= <-]. reflexivity.
Defined.

(** X2.  [case_id] reads the header only: its result on a file is its result
    on the first [rows2skip] lines of that file. *)
Theorem case_id_reads_header_only (lines : list string) (identifier sample_id : string) :
  case_id_loop identifier sample_id lines
  = case_id_loop identifier sample_id (take (rows2skip_loop 0 lines) lines).
Proof.
  revert identifier sample_id. induction lines as [|l lines IH]; intros i s; [done|].
  cbn [rows2skip_loop]. destruct (startswith l "##") eqn:Hl.
  - rewrite rows2skip_loop_acc. cbn [Nat.add take case_id_loop]. rewrite Hl.
    destruct (startswith l "##INDIVIDUAL").
    + destruct (getidx _ 0); [|done]. simpl. destruct (both_found _ _); [done|apply IH].
    + destruct (startswith l "##SAMPLE=<ID=TUMOR"); [|apply IH].
      destruct (getidx _ 1); [|done]. simpl. destruct (both_found _ _); [done|apply IH].
  - cbn [take case_id_loop]. by rewrite Hl.
Qed.

Lemma partition_None s sep : partition s sep = None ↔ contains sep s = false.
Proof.
  induction s as [|c s IH]; rewrite partition_eq; cbn [contains].
  - destruct (startswith "" sep); [by split|done].
  - destruct (startswith (String c s) sep); [by split|]. simpl.
    rewrite <-IH. by destruct (partition s sep) as [[??]|].
Qed.

Lemma csqkeys_loop_Raise lines e : csqkeys_loop lines = Raise e → e = IndexError.
Proof.
  induction lines as [|l lines IH]; [done|]. cbn [csqkeys_loop].
  destruct (startswith l "##INFO=<ID=CSQ"); [|done].
  destruct (getidx _ 1) eqn:E; [done|]. simpl. intros [= <-].
  by eapply getidx_Raise.
Qed.

(** X3.  [csqkeys] is decided by the first line that starts with
    [##INFO=<ID=CSQ], wherever it stands in the file; the lines after it
    are not read.  It returns exactly when that line contains [Format: ],
    and the only exception it raises is [IndexError]. *)
Theorem csqkeys_first_declaration (before after : list string) (line : string) :
  Forall (λ l, PyStr.startswith l "##INFO=<ID=CSQ" = false) before →
  PyStr.startswith line "##INFO=<ID=CSQ" = true →
  csqkeys_loop (before ++ line :: after) = csqkeys_loop [line]
  ∧ (succeeds (csqkeys_loop [line]) ↔ PyStr.contains "Format: " line = true)
  ∧ (PyStr.contains "Format: " line = false →
     csqkeys_loop (before ++ line :: after) = Raise IndexError).
Proof.
  intros Hbefore Hline.
  assert (csqkeys_loop (before ++ line :: after) = csqkeys_loop [line]) as Heq.
  { rewrite csqkeys_loop_skip by done. cbn [csqkeys_loop]. by rewrite Hline. }
  assert (contains "Format: " line = false → csqkeys_loop [line] = Raise IndexError)
    as Hraise.
  { intros Hc%partition_None. cbn [csqkeys_loop]. rewrite Hline.
    unfold split1. by rewrite Hc. }
  split_and!; [done| |by intros ?; rewrite Heq; apply Hraise].
  split.
  - intros [q Hq]. destruct (contains "Format: " line) eqn:E; [done|].
    rewrite Hraise in Hq; done.
  - intros Hc. cbn [csqkeys_loop]. rewrite Hline. unfold split1.
    destruct (partition line "Format: ") as [[a b]|] eqn:E.
    + by eexists.
    + apply partition_None in E. congruence.
Qed.

Lemma csqkeys_first_declaration_witness :
  csqkeys_loop (["##fileformat=VCFv4.2"; "#CHROM"]
                  ++ "##INFO=<ID=CSQ,Description=none>" :: ["##INFO=<ID=CSQ,Format: A|B"])
  = Raise IndexError.
Proof.
  apply (csqkeys_first_declaration ["##fileformat=VCFv4.2"; "#CHROM"]
           ["##INFO=<ID=CSQ,Format: A|B"] "##INFO=<ID=CSQ,Description=none>");
    [repeat constructor|reflexivity|reflexivity].
Defined.

Lemma replace_go_skip old new p s :
  replace_go old new (len p) (p +:+ s) = replace_go old new 0 s.
Proof. induction p as [|a p IH]; [done|]. rewrite str_app_cons. apply IH. Qed.

Lemma replace_absent s old new : contains old s = false → replace s old new = s.
Proof.
  unfold replace. induction s as [|c s IH]; [done|].
  cbn [contains]. intros [Hs Hc]%orb_false_elim.
  cbn [replace_go]. rewrite Hs. f_equal. by apply IH.
Qed.

Lemma replace_prefix a old x :
  contains (String a old) x = false →
  replace (String a old +:+ x) (String a old) "" = x.
Proof.
  intros Hx. unfold replace. rewrite str_app_cons. cbn [replace_go].
  rewrite <-str_app_cons, startswith_app, str_app_nil_l.
  cbn [len]. rewrite Nat.sub_1_r. cbn [Nat.pred].
  rewrite replace_go_skip. by apply replace_absent.
Qed.

Lemma case_id_loop_other skip rest identifier sample_id :
  Forall other_metadata skip →
  case_id_loop identifier sample_id (skip ++ rest)
  = case_id_loop identifier sample_id rest.
Proof.
  induction 1 as [|l skip (Hm & Hi & Hs) _ IH]; [done|].
  rewrite <-app_comm_cons. cbn [case_id_loop]. by rewrite Hm, Hi, Hs.
Qed.

Lemma both_found_true i s : i ≠ "" → s ≠ "" → both_found i s = true.
Proof. by destruct i, s. Qed.

Lemma individual_line_step name more i s rest :
  free_of "," name = true →
  contains "##INDIVIDUAL=<NAME=" name = false →
  case_id_loop i s (individual_line name more :: rest)
  = if both_found name s then Ok (name, s) else case_id_loop name s rest.
Proof.
  intros Hfree Hname. cbn [case_id_loop]. unfold individual_line.
  rewrite (startswith_app_l "##INDIVIDUAL=<NAME=" "##" _ eq_refl).
  rewrite (startswith_app_l "##INDIVIDUAL=<NAME=" "##INDIVIDUAL" _ eq_refl).
  rewrite <-str_app_assoc.
  change ("," +:+ more) with (String "," more).
  rewrite split_char_app by (by rewrite free_of_app, Hfree).
  cbn [getidx lookup list_lookup]. rewrite bind_Ok_l.
  by rewrite replace_prefix.
Qed.

Lemma startswith_app_false p q t :
  len q ≤ len p → startswith p q = false → startswith (p +:+ t) q = false.
Proof.
  intros Hlen Hp. destruct (startswith (p +:+ t) q) eqn:E; [|done].
  apply startswith_app_inv in E; [congruence|done].
Qed.

Lemma sample_line_step name more i s rest :
  free_of "," name = true →
  contains "NAME=" name = false →
  case_id_loop i s (sample_line name more :: rest)
  = if both_found i name then Ok (i, name) else case_id_loop i name rest.
Proof.
  intros Hfree Hname. cbn [case_id_loop]. unfold sample_line.
  rewrite (startswith_app_l "##SAMPLE=<ID=TUMOR,NAME=" "##" _ eq_refl).
  rewrite (startswith_app_false "##SAMPLE=<ID=TUMOR,NAME=" "##INDIVIDUAL")
    by (simpl; done || lia).
  rewrite (startswith_app_l "##SAMPLE=<ID=TUMOR,NAME=" "##SAMPLE=<ID=TUMOR" _ eq_refl).
  change ("##SAMPLE=<ID=TUMOR,NAME=" +:+ name +:+ "," +:+ more)
    with ("##SAMPLE=<ID=TUMOR" +:+ String "," ("NAME=" +:+ name +:+ String "," more)).
  rewrite split_char_app by done.
  rewrite <-str_app_assoc.
  rewrite split_char_app by (by rewrite free_of_app, Hfree).
  cbn [getidx lookup list_lookup]. rewrite bind_Ok_l.
  by rewrite replace_prefix.
Qed.

(** X4.  [case_id] on a header that declares the case by a line
    [##INDIVIDUAL=<NAME=case,...] and the tumor sample by a line
    [##SAMPLE=<ID=TUMOR,NAME=sample,...], in either order and among other
    metadata lines, returns the pair [(case, sample)]; whatever follows
    the second of the two lines is not read.  The names are non-empty,
    hold no comma and do not contain the text that [replace] removes. *)
Theorem case_id_extracts (l1 l2 l3 : list string) (case sample more1 more2 : string) :
  Forall other_metadata l1 → Forall other_metadata l2 →
  case ≠ "" → sample ≠ "" →
  PyStr.free_of "," case = true → PyStr.free_of "," sample = true →
  PyStr.contains "##INDIVIDUAL=<NAME=" case = false →
  PyStr.contains "NAME=" sample = false →
  case_id_loop "" ""
    (l1 ++ individual_line case more1 :: l2 ++ sample_line sample more2 :: l3)
  = Ok (case, sample)
  ∧ case_id_loop "" ""
      (l1 ++ sample_line sample more2 :: l2 ++ individual_line case more1 :: l3)
    = Ok (case, sample).
Proof.
  intros H1 H2 Hc Hs Hfc Hfs Hcc Hcs. split.
  - rewrite case_id_loop_other, individual_line_step by done.
    replace (both_found case "") with false by (by destruct case).
    rewrite case_id_loop_other, sample_line_step by done.
    by rewrite both_found_true.
  - rewrite case_id_loop_other, sample_line_step by done.
    replace (both_found "" sample) with false by done.
    rewrite case_id_loop_other, individual_line_step by done.
    by rewrite both_found_true.
Qed.

Lemma case_id_extracts_witness :
  case_id_loop "" ""
    (["##fileformat=VCFv4.2"] ++ individual_line "C1" "ID=7>"
       :: ["##source=x"] ++ sample_line "S9" "X=1>" :: ["##SAMPLE=<ID=TUMOR>"])
  = Ok ("C1", "S9").
Proof.
  apply (case_id_extracts ["##fileformat=VCFv4.2"] ["##source=x"]
           ["##SAMPLE=<ID=TUMOR>"] "C1" "S9" "ID=7>" "X=1>");
    try done; repeat constructor.
Defined.

(** * Further properties of the decoders *)

Lemma info_token_item kv :
  plain_item kv →
  info_pair (if negb (contains "=" (encode_item kv)) then encode_item kv +:+ "=nan"
             else encode_item kv)
  = Ok (item_pair kv).
Proof.
  destruct kv as [k [v|]]; unfold plain_item, encode_item, item_pair; simpl.
  - intros (_ & Hk & Hv). destruct (Hv v eq_refl) as [_ Hv'].
    rewrite contains_eq_kv. simpl. by apply info_pair_kv.
  - intros (_ & Hk & _). rewrite contains_char, Hk. simpl.
    change (k +:+ "=nan") with (k +:+ "=" +:+ "nan"). by apply info_pair_kv.
Qed.

Lemma encode_item_free kv : plain_item kv → free_of ";" (encode_item kv) = true.
Proof.
  destruct kv as [k [v|]]; unfold plain_item, encode_item; simpl.
  - intros (Hk & _ & Hv). destruct (Hv v eq_refl) as [Hv' _].
    by rewrite !free_of_app, Hk, Hv'.
  - by intros (Hk & _).
Qed.

(** X5.  Round trip of the outer INFO decode: a text written as [;]-separated
    entries [key=value] or bare [key] decodes to the dictionary built from
    those entries in order, a bare key mapped to ['nan'].  With distinct
    keys, looking a key up gives back its value; with a repeated key the
    last entry wins. *)
Theorem info_decode_roundtrip (items : list (string * option string)) :
  items ≠ [] → Forall plain_item items →
  info_dict_of (info_tokens (PyStr.join ";" (map encode_item items)))
  = Ok (dict_of (map item_pair items))
  ∧ (∀ i k o, NoDup (items.*1) → items !! i = Some (k, o) →
       dict_of (map item_pair items) !! k = Some (IStr (default "nan" o)))
  ∧ (∀ k o1 o2 rest, items = rest ++ [(k, o2)] →
       dict_of (map item_pair ((k, o1) :: items)) !! k = Some (IStr (default "nan" o2))).
Proof.
  intros Hne Hall. split_and!.
  - unfold info_tokens. rewrite split_join.
    + unfold info_dict_of.
      assert (traverse info_pair
                (map (λ i, if negb (contains "=" i) then i +:+ "=nan" else i)
                   (map encode_item items)) = Ok (map item_pair items)) as ->; [|done].
      clear Hne. induction Hall as [|kv items Hkv _ IH]; [done|].
      cbn [map traverse]. by rewrite info_token_item, IH.
    + by destruct items.
    + apply Forall_map. eapply Forall_impl; [done|]. apply encode_item_free.
  - intros i k o Hnd Hi. apply (dict_of_lookup _ i).
    + replace ((map item_pair items).*1) with (items.*1); [done|].
      clear. induction items as [|[??] items IH]; [done|]. simpl. by f_equal.
    + rewrite list_lookup_fmap, Hi. done.
  - intros k o1 o2 rest ->.
    change ((k, o1) :: rest ++ [(k, o2)]) with (((k, o1) :: rest) ++ [(k, o2)]).
    rewrite map_app.
    change (map item_pair [(k, o2)]) with [(k, IStr (default "nan" o2))].
    rewrite dict_of_snoc. apply lookup_insert_eq.
Qed.

Lemma info_decode_roundtrip_witness :
  info_dict_of (info_tokens (PyStr.join ";"
                  (map encode_item [("DP", Some "10"); ("IN_PON", None);
                                    ("DP", Some "12")])))
  = Ok (dict_of (map item_pair [("DP", Some "10"); ("IN_PON", None);
                                ("DP", Some "12")])).
Proof.
  apply (info_decode_roundtrip [("DP", Some "10"); ("IN_PON", None); ("DP", Some "12")]);
    [done|].
  repeat (apply Forall_cons_2;
          [unfold plain_item; simpl; split_and!;
           [done..|intros v Hv; by simplify_eq]|]).
  apply Forall_nil_2.
Defined.

(** X6.  Round trip of the positional decode: values without the separator,
    joined by it and decoded against a schema of distinct keys, are found
    again under the key of their position; with as many values as keys the
    sub-record is defined on every schema key. *)
Theorem decode_entry_roundtrip (keys values : list string) (c : ascii) :
  NoDup keys → values ≠ [] → Forall (λ v, PyStr.free_of c v = true) values →
  (∀ i k, keys !! i = Some k →
     decode_entry (PList keys) (String c "") (PyStr.join (String c "") values) !! k
     = values !! i)
  ∧ (length values = length keys →
     ∀ k, k ∈ keys →
       is_Some (decode_entry (PList keys) (String c "")
                  (PyStr.join (String c "") values) !! k)).
Proof.
  intros Hnd Hne Hfree. unfold decode_entry. rewrite split_join by done. simpl.
  split.
  - intros i k Hk. by apply dict_zip_lookup.
  - intros Hlen k Hk. apply dict_zip_dom. by rewrite Hlen, firstn_all.
Qed.

Lemma decode_entry_roundtrip_witness :
  decode_entry (PList ["Allele"; "Consequence"; "Feature"]) "|"
    (PyStr.join "|" ["T"; "missense_variant"; "ENST1"]) !! "Feature"
  = ["T"; "missense_variant"; "ENST1"] !! 2.
Proof.
  apply (decode_entry_roundtrip ["Allele"; "Consequence"; "Feature"]
           ["T"; "missense_variant"; "ENST1"] "|"); try done.
  - apply (bool_decide_unpack _). vm_compute. exact I.
  - repeat constructor.
Defined.

(** X7.  [update_value] changes the given key only and stores one sub-record
    for each [,]-separated entry of its text, at least one even for an
    empty text; decoding a dictionary that was already decoded raises
    [AttributeError]. *)
Theorem update_value_effect (d d' : info_dict) (key : string) (keys : pyseq) :
  update_value d key keys = Ok d' →
  (∀ k, k ≠ key → d' !! k = d !! k)
  ∧ (∃ s l, d !! key = Some (IStr s) ∧ d' !! key = Some (ICsq l)
            ∧ length l = S (PyStr.count "," s))
  ∧ (∀ keys', update_value d' key keys' = Raise AttributeError).
Proof.
  unfold update_value, getitem.
  destruct (d !! key) as [[s|l]|] eqn:Hd; simpl; [|done..].
  intros [= <-]. split_and!.
  - intros k Hk. by rewrite lookup_insert_ne.
  - eexists s, _. split_and!; [done|apply lookup_insert_eq|].
    by rewrite length_map, split_char_length.
  - intros keys'. by rewrite lookup_insert_eq.
Qed.

Lemma update_value_effect_witness :
  update_value (<["CSQ" := ICsq [{["Allele" := ""]}]]> {["DP" := IStr "10"]})
    "CSQ" example_keys = Raise AttributeError.
Proof.
  assert (update_value (<["CSQ" := IStr ""]> {["DP" := IStr "10"]}) "CSQ" example_keys
          = Ok (<["CSQ" := ICsq [{["Allele" := ""]}]]> {["DP" := IStr "10"]})) as Hfirst
    by (vm_compute; reflexivity).
  destruct (update_value_effect _ _ _ _ Hfirst) as (_ & _ & Hagain).
  apply Hagain.
Defined.

(** * Further properties of the variant filter *)

Lemma filterM_filter {A} (p : A → result bool) (q : A → bool) l :
  Forall (λ x, p x = Ok (q x)) l → filterM p l = Ok (List.filter q l).
Proof.
  induction 1 as [|x l Hx _ IH]; [done|]. simpl. rewrite Hx, IH. simpl.
  by destruct (q x).
Qed.

Lemma filterM_succeeds {A} (p : A → result bool) l :
  succeeds (filterM p l) ↔ Forall (λ x, succeeds (p x)) l.
Proof.
  induction l as [|x l IH]; simpl.
  - split; [constructor|by eexists].
  - rewrite Forall_cons, <-IH. unfold succeeds. split.
    + intros (out & (b & Hb & (ys & Hys & _)%bind_Ok)%bind_Ok). eauto.
    + intros [[b Hb] [ys Hys]]. rewrite Hb, Hys. simpl. eauto.
Qed.

Lemma filterM_Raise {A} (p : A → result bool) l e :
  filterM p l = Raise e → ∃ x, x ∈ l ∧ p x = Raise e.
Proof.
  induction l as [|x l IH]; [done|]. simpl.
  destruct (p x) as [b|e'] eqn:Hx; simpl.
  - destruct (filterM p l) as [ys|e'']; [done|]. simpl. intros [= <-].
    destruct IH as (x' & ? & ?); [done|]. exists x'. split; [by right|done].
  - intros [= <-]. exists x. split; [by left|done].
Qed.

Lemma filterM_kept {A} (p : A → result bool) l out :
  filterM p l = Ok out → Forall (λ x, x ∈ l ∧ p x = Ok true) out.
Proof.
  revert out. induction l as [|x l IH]; intros out; simpl; [by intros [= <-]|].
  intros (b & Hb & (ys & Hys%IH & [= <-])%bind_Ok)%bind_Ok.
  assert (Forall (λ y, y ∈ x :: l ∧ p y = Ok true) ys) as Hys'.
  { eapply Forall_impl; [done|]. intros y [??]. split; [by right|done]. }
  destruct b; [|done]. constructor; [|done]. split; [by left|done].
Qed.

Lemma filterM_fixed {A} (p : A → result bool) l :
  Forall (λ x, p x = Ok true) l → filterM p l = Ok l.
Proof. induction 1 as [|x l Hx _ IH]; [done|]. simpl. by rewrite Hx, IH. Qed.

Lemma keep_vcf_pred variant variant_class r :
  vcf_safe variant r → keep_vcf variant variant_class r = Ok (vcf_pred variant variant_class r).
Proof.
  intros (c & Hc & Hk). unfold keep_vcf, vcf_pred, getitem. rewrite Hc. simpl.
  destruct (contains variant c); [|done].
  destruct (Hk eq_refl) as [k ->]. done.
Qed.

Lemma keep_vcf_succeeds variant variant_class r :
  succeeds (keep_vcf variant variant_class r) ↔ vcf_safe variant r.
Proof.
  split; [|intros H; rewrite keep_vcf_pred by done; by eexists].
  unfold keep_vcf, vcf_safe, getitem, succeeds.
  destruct (r !! "Consequence") as [c|]; simpl; [|by intros [? ?]].
  intros [b Hb]. exists c. split; [done|]. intros Hc. rewrite Hc in Hb.
  destruct (r !! "VARIANT_CLASS"); [by eexists|done].
Qed.

Lemma keep_vcf_Raise variant variant_class r e :
  keep_vcf variant variant_class r = Raise e → e = KeyError.
Proof.
  unfold keep_vcf, getitem. destruct (r !! "Consequence") as [c|]; simpl; [|congruence].
  destruct (contains variant c); [|done].
  destruct (r !! "VARIANT_CLASS"); simpl; congruence.
Qed.

Lemma keep_vcf_true variant variant_class r :
  keep_vcf variant variant_class r = Ok true ↔
  ∃ c k, r !! "Consequence" = Some c ∧ contains variant c = true
         ∧ r !! "VARIANT_CLASS" = Some k ∧ contains variant_class k = true.
Proof.
  unfold keep_vcf, getitem. split.
  - destruct (r !! "Consequence") as [c|]; simpl; [|done].
    destruct (contains variant c) eqn:Hc; [|done].
    destruct (r !! "VARIANT_CLASS") as [k|]; simpl; [|done].
    intros [= Hk]. by exists c, k.
  - intros (c & k & -> & Hc & -> & Hk). simpl. by rewrite Hc, Hk.
Qed.

(** X8.  What [filter_variants] does to an INFO dictionary.  It raises
    [KeyError] when the key CSQ is absent, [TypeError] only when CSQ still
    holds text, and on a decoded CSQ list it raises ([KeyError]) exactly
    when the test raises on some sub-record: [Consequence] missing, or
    [VARIANT_CLASS] missing on a sub-record whose [Consequence] matches (a
    sub-record whose [Consequence] does not match is dropped without its
    [VARIANT_CLASS] being read).  Otherwise the CSQ list becomes the
    sub-list, in order, of the sub-records whose [Consequence] contains
    [variant] and whose [VARIANT_CLASS] contains [variant_class]; the
    other keys are untouched. *)
Theorem filter_variants_spec (d : info_dict) (variant variant_class : string) :
  (d !! "CSQ" = None → filter_variants d variant variant_class = Raise KeyError)
  ∧ (∀ e, filter_variants d variant variant_class = Raise e →
          e = KeyError ∨ (e = TypeError ∧ ∃ s, d !! "CSQ" = Some (IStr s)))
  ∧ (∀ l, d !! "CSQ" = Some (ICsq l) →
       (succeeds (filter_variants d variant variant_class) ↔ Forall (vcf_safe variant) l)
       ∧ (Forall (vcf_safe variant) l →
          filter_variants d variant variant_class
          = Ok (<["CSQ" := ICsq (List.filter (vcf_pred variant variant_class) l)]> d))).
Proof.
  unfold filter_variants, getitem. split_and!.
  - by intros ->.
  - intros e. destruct (d !! "CSQ") as [[s|l]|]; simpl; [| |by intros [= <-]; left].
    + destruct s; simpl; [|intros [= <-]; right; eauto].
      done.
    + destruct (filterM _ l) as [l'|e'] eqn:E; simpl; [done|]. intros [= <-].
      apply filterM_Raise in E as (r & _ & Hr). left. by eapply keep_vcf_Raise.
  - intros l ->. simpl.
    assert (Forall (vcf_safe variant) l →
            filterM (keep_vcf variant variant_class) l
            = Ok (List.filter (vcf_pred variant variant_class) l)) as Hfil.
    { intros Hall. apply filterM_filter. eapply Forall_impl; [done|].
      intros r Hr. by apply keep_vcf_pred. }
    split.
    + split.
      * intros [d' (l' & Hl' & _)%bind_Ok].
        assert (succeeds (filterM (keep_vcf variant variant_class) l)) as Hs
          by by eexists.
        apply filterM_succeeds in Hs. eapply Forall_impl; [done|].
        intros r. apply keep_vcf_succeeds.
      * intros Hall. rewrite Hfil by done. by eexists.
    + intros Hall. by rewrite Hfil.
Qed.

Lemma filter_variants_spec_witness :
  filter_variants
    {["CSQ" := ICsq [{["Consequence" := "synonymous_variant"]};
                     <["VARIANT_CLASS" := "SNP"]> {["Consequence" := "missense_variant"]}]]}
    "missense_variant" "SNP"
  = Ok {["CSQ" := ICsq [<["VARIANT_CLASS" := "SNP"]>
                          {["Consequence" := "missense_variant"]}]]}
  ∧ filter_variants ∅ "missense_variant" "SNP" = Raise KeyError.
Proof.
  destruct (filter_variants_spec
              {["CSQ" := ICsq [{["Consequence" := "synonymous_variant"]};
                               <["VARIANT_CLASS" := "SNP"]>
                                 {["Consequence" := "missense_variant"]}]]}
              "missense_variant" "SNP") as (_ & _ & Hlist).
  destruct (Hlist _ eq_refl) as [_ Hval].
  split.
  - etrans.
    + apply Hval. repeat constructor.
      * exists "synonymous_variant". split; [reflexivity|]. intros H. vm_compute in H. done.
      * exists "missense_variant". split; [reflexivity|]. intros _. by eexists.
    + vm_compute. reflexivity.
  - apply (filter_variants_spec ∅ "missense_variant" "SNP"). reflexivity.
Defined.

Lemma keep_maf_pred consequence r :
  is_Some (r !! "Consequence_all_effects") →
  keep_maf consequence r = Ok (maf_pred consequence r).
Proof. intros [c Hc]. unfold keep_maf, maf_pred, getitem. by rewrite Hc. Qed.

Lemma keep_maf_succeeds consequence r :
  succeeds (keep_maf consequence r) ↔ is_Some (r !! "Consequence_all_effects").
Proof.
  split; [|intros H; rewrite keep_maf_pred by done; by eexists].
  unfold keep_maf, getitem. destruct (r !! _); [by eexists|by intros [? ?]].
Qed.

Lemma filter_variants_maf_succeeds l consequence :
  succeeds (filter_variants_maf l consequence) ↔
  Forall (λ r : subrecord, is_Some (r !! "Consequence_all_effects")) l.
Proof.
  rewrite <-(Forall_iff (λ r, succeeds (keep_maf consequence r)))
    by (intros r; apply keep_maf_succeeds).
  rewrite <-filterM_succeeds. unfold filter_variants_maf, succeeds. split.
  - intros [c (l' & -> & _)%bind_Ok]. eauto.
  - intros [l' ->]. simpl. destruct (0 <? length l'); eauto.
Qed.

(** X9.  What [filter_variants_maf] does to a list of sub-records.  It returns
    exactly when every sub-record carries [Consequence_all_effects]
    ([KeyError] otherwise); the result is then the sub-list, in order, of
    the sub-records whose value contains [consequence], or [NaN] when that
    sub-list is empty. *)
Theorem filter_variants_maf_spec (l : list subrecord) (consequence : string) :
  (succeeds (filter_variants_maf l consequence) ↔
   Forall (λ r : subrecord, is_Some (r !! "Consequence_all_effects")) l)
  ∧ (∀ e, filter_variants_maf l consequence = Raise e → e = KeyError)
  ∧ (Forall (λ r : subrecord, is_Some (r !! "Consequence_all_effects")) l →
     filter_variants_maf l consequence
     = Ok (match List.filter (maf_pred consequence) l with
           | [] => CNaN
           | r :: l' => CRecs (r :: l')
           end)).
Proof.
  split_and!.
  - apply filter_variants_maf_succeeds.
  - intros e. unfold filter_variants_maf.
    destruct (filterM _ l) as [l'|e'] eqn:E; simpl; [by destruct (0 <? _)|].
    intros [= <-]. apply filterM_Raise in E as (r & _ & Hr).
    unfold keep_maf, getitem in Hr. destruct (r !! _); simpl in Hr; congruence.
  - intros Hall. unfold filter_variants_maf.
    rewrite (filterM_filter _ (maf_pred consequence)).
    + simpl. by destruct (List.filter _ l).
    + eapply Forall_impl; [done|]. intros r. apply keep_maf_pred.
Qed.

Lemma filter_variants_maf_spec_witness :
  filter_variants_maf
    (decode_all_effects
       "S1,missense_variant,p.A;S2,synonymous_variant,p.B;S3,missense_variant,p.C")
    "missense_variant"
  = Ok (CRecs [decode_entry (PList maf_keys) "," "S1,missense_variant,p.A";
               decode_entry (PList maf_keys) "," "S3,missense_variant,p.C"]).
Proof.
  etrans.
  - apply (filter_variants_maf_spec
             (decode_all_effects
                "S1,missense_variant,p.A;S2,synonymous_variant,p.B;S3,missense_variant,p.C")
             "missense_variant").
    apply (bool_decide_unpack _). vm_compute. exact I.
  - vm_compute. reflexivity.
Defined.

Lemma maf_entry_has_consequence entry :
  is_Some (decode_entry (PList maf_keys) "," entry !! "Consequence_all_effects")
  ↔ free_of "," entry = false.
Proof.
  unfold decode_entry. rewrite dict_zip_dom, split_char_length. simpl iter.
  destruct (free_of "," entry) eqn:E.
  - apply free_of_count in E. rewrite E. simpl. split; [|done].
    intros H. apply list_elem_of_singleton in H. done.
  - assert (count "," entry ≠ 0) by (intros ?%free_of_count; congruence).
    split; [done|]. intros _.
    destruct (count "," entry) as [|n]; [done|]. simpl. set_solver.
Qed.

(** X10.  On the text of an [all_effects] cell, decoding and filtering returns
    exactly when every [;]-separated sub-entry holds a comma, that is, has
    a second field; an entry without one, such as the empty text, makes
    the filter raise [KeyError]. *)
Theorem maf_decode_filter_succeeds (x consequence : string) :
  succeeds (cell_chain_maf consequence (CStr x)) ↔
  Forall (λ entry, PyStr.free_of "," entry = false) (PyStr.split x ";").
Proof.
  rewrite cell_chain_maf_text, filter_variants_maf_succeeds.
  unfold decode_all_effects. rewrite Forall_map.
  apply Forall_iff. intros entry. apply maf_entry_has_consequence.
Qed.

Lemma maf_decode_filter_succeeds_witness :
  succeeds (cell_chain_maf "missense_variant" (CStr "S1,missense_variant;S2,stop_gained")).
Proof.
  apply (maf_decode_filter_succeeds "S1,missense_variant;S2,stop_gained").
  apply (bool_decide_unpack _). vm_compute. exact I.
Defined.

Lemma startswith_iff s p : startswith s p = true ↔ ∃ q, s = p +:+ q.
Proof.
  split; [|intros [q ->]; apply startswith_app].
  revert s. induction p as [|a p IH]; intros s; [by exists s|].
  destruct s as [|b s]; simpl; [done|]. case_decide as Hab; [|done].
  intros [q ->]%IH. exists q. by rewrite Hab.
Qed.

Lemma contains_iff sub s : contains sub s = true ↔ ∃ p q, s = p +:+ sub +:+ q.
Proof.
  split.
  - induction s as [|c s IH]; cbn [contains].
    + rewrite orb_false_r. intros [q Hq]%startswith_iff. by exists "", q.
    + intros [[q Hq]%startswith_iff|(p & q & ->)%IH]%orb_true_iff.
      * by exists "", q.
      * by exists (String c p), q.
  - intros (p & q & ->). induction p as [|c p IH].
    + rewrite str_app_nil_l. destruct (sub +:+ q) eqn:E; cbn [contains];
        rewrite <-E, startswith_app; done.
    + rewrite str_app_cons. cbn [contains]. by rewrite IH, orb_true_r.
Qed.

Lemma contains_trans a b c :
  contains a b = true → contains b c = true → contains a c = true.
Proof.
  intros (p & q & ->)%contains_iff (p' & q' & ->)%contains_iff.
  apply contains_iff. exists (p' +:+ p), (q +:+ q').
  by rewrite !str_app_assoc.
Qed.

Lemma contains_empty s : contains "" s = true.
Proof. by destruct s. Qed.

(** X11.  The filter tests containment, not equality, so a shorter pattern keeps
    at least as much: when [variant] occurs in [variant'] and
    [variant_class] in [variant_class'], every sub-record kept for the
    longer patterns is kept for the shorter ones.  The empty patterns keep
    every sub-record that carries both fields. *)
Theorem filter_variants_narrowing (d d1 d2 : info_dict) (l1 l2 : list subrecord)
    (variant variant' variant_class variant_class' : string) :
  PyStr.contains variant variant' = true →
  PyStr.contains variant_class variant_class' = true →
  filter_variants d variant' variant_class' = Ok d1 →
  filter_variants d variant variant_class = Ok d2 →
  d1 !! "CSQ" = Some (ICsq l1) → d2 !! "CSQ" = Some (ICsq l2) →
  (∀ r, r ∈ l1 → r ∈ l2)
  ∧ (∀ l, d !! "CSQ" = Some (ICsq l) → variant = "" → variant_class = "" → d2 = d).
Proof.
  intros Hv Hc. unfold filter_variants.
  intros (v & Hd & (l & Hl & (k1 & Hk1 & [= <-])%bind_Ok)%bind_Ok)%bind_Ok.
  rewrite Hd, bind_Ok_l, Hl, bind_Ok_l.
  intros (k2 & Hk2 & [= <-])%bind_Ok.
  rewrite !lookup_insert_eq. intros [= <-] [= <-]. split.
  - intros r Hr. pose proof (filterM_kept _ _ _ Hk1) as Hkept.
    rewrite Forall_forall in Hkept. destruct (Hkept r Hr) as [Hin Htrue].
    apply keep_vcf_true in Htrue as (c & k & Hrc & Hcv & Hrk & Hkc).
    assert (keep_vcf variant variant_class r = Ok true) as Hkeep.
    { apply keep_vcf_true. exists c, k. split_and!; [done| |done|];
        by eapply contains_trans. }
    clear Hk1 Hkept Hr Hl. revert k2 Hk2. induction l as [|x l IH]; intros k2 Hk2.
    + by apply not_elem_of_nil in Hin.
    + simpl in Hk2.
      apply bind_Ok in Hk2 as (b & Hb & (ys & Hys & [= <-])%bind_Ok).
      apply elem_of_cons in Hin as [->|Hin].
      * rewrite Hkeep in Hb. injection Hb as <-. by left.
      * destruct b; [apply list_elem_of_further|]; exact (IH Hin _ Hys).
  - intros l0 Hl0 -> ->.
    assert (k2 = l) as ->.
    { clear Hl Hk1 Hd. revert k2 Hk2. induction l as [|x l IH]; intros k2; simpl.
      - by intros [= <-].
      - intros (b & Hb & (ys & Hys%IH & [= <-])%bind_Ok)%bind_Ok. subst ys.
        unfold keep_vcf in Hb. apply bind_Ok in Hb as (c & _ & Hb).
        rewrite contains_empty in Hb. apply bind_Ok in Hb as (k & _ & Hb).
        rewrite contains_empty in Hb. by injection Hb as <-. }
    apply insert_id. unfold getitem in Hd. rewrite Hl0 in Hd |- *.
    injection Hd as <-. simpl in Hl. by injection Hl as ->.
Qed.

Lemma filter_variants_narrowing_witness :
  (<["VARIANT_CLASS" := "SNP"]>
     {["Consequence" := "missense_variant&splice_region_variant"]} : subrecord)
  ∈ [<["VARIANT_CLASS" := "SNP"]>
       {["Consequence" := "missense_variant&splice_region_variant"]};
     <["VARIANT_CLASS" := "SNP"]> {["Consequence" := "missense_variant"]}].
Proof.
  eapply (proj1 (filter_variants_narrowing
           {["CSQ" := ICsq [<["VARIANT_CLASS" := "SNP"]>
                              {["Consequence" := "missense_variant&splice_region_variant"]};
                            <["VARIANT_CLASS" := "SNP"]>
                              {["Consequence" := "missense_variant"]}]]}
           _ _
           [<["VARIANT_CLASS" := "SNP"]>
              {["Consequence" := "missense_variant&splice_region_variant"]}]
           _ "missense_variant" "missense_variant&splice" "SNP" "SNP"
           eq_refl eq_refl _ _ _ _)).
  Unshelve.
  all: try (vm_compute; reflexivity).
  apply list_elem_of_singleton. reflexivity.
Defined.

(** X12.  Filtering is idempotent: filtering the result of a filter again, with
    the same patterns, returns it unchanged, on both paths. *)
Theorem filter_idempotent (variant variant_class : string) :
  (∀ d d', filter_variants d variant variant_class = Ok d' →
           filter_variants d' variant variant_class = Ok d')
  ∧ (∀ l l', filter_variants_maf l variant = Ok (CRecs l') →
             filter_variants_maf l' variant = Ok (CRecs l')).
Proof.
  split.
  - intros d d'. unfold filter_variants.
    intros (v & _ & (l & _ & (l' & Hl' & [= <-])%bind_Ok)%bind_Ok)%bind_Ok.
    unfold getitem. rewrite lookup_insert_eq. simpl.
    rewrite filterM_fixed; [by simpl; rewrite insert_insert_eq|].
    eapply Forall_impl; [by eapply filterM_kept|]. by intros r [_ ?].
  - intros l l'. unfold filter_variants_maf.
    intros (k & Hk & Hres)%bind_Ok.
    destruct (0 <? length k) eqn:Hlen; [|done]. injection Hres as ->.
    rewrite filterM_fixed; [by simpl; rewrite Hlen|].
    eapply Forall_impl; [by eapply filterM_kept|]. by intros r [_ ?].
Qed.

Lemma filter_idempotent_witness :
  filter_variants
    {["CSQ" := ICsq [<["VARIANT_CLASS" := "SNP"]> {["Consequence" := "missense_variant"]}]]}
    "missense_variant" "SNP"
  = Ok {["CSQ" := ICsq [<["VARIANT_CLASS" := "SNP"]>
                          {["Consequence" := "missense_variant"]}]]}.
Proof.
  apply (proj1 (filter_idempotent "missense_variant" "SNP")
           {["CSQ" := ICsq [{["Consequence" := "stop_gained"]};
                            <["VARIANT_CLASS" := "SNP"]>
                              {["Consequence" := "missense_variant"]}]]}).
  vm_compute. reflexivity.
Defined.

(** * Further properties of the transcript resolver *)

Lemma find_loop_sound field ids acc l r :
  find_loop field ids acc l = Ok (Some r) →
  acc = Some r ∨ (r ∈ l ∧ ∃ f, r !! field = Some f ∧ f ∈ ids).
Proof.
  revert acc. induction l as [|x l IH]; intros acc; cbn [find_loop].
  - intros [= ->]. by left.
  - unfold getitem. destruct (x !! field) as [f|] eqn:Hf; [|done]. simpl.
    case_decide as Hin.
    + intros [[= <-]|[Hr Hm]]%IH; right; (split; [|eauto]); [by left|by right].
    + intros [->|[Hr Hm]]%IH; [by left|right]. split; [by right|done].
Qed.

Lemma find_result_cases variants c :
  find_result variants = c → c = CNaN ∨ ∃ r, variants = Some r ∧ c = CRec r.
Proof.
  unfold find_result. destruct (0 <? variants_len variants) eqn:E; [|by left].
  destruct variants as [r|]; [|done]. intros <-. right. by exists r.
Qed.

Lemma find_variants_sound ids c d :
  find_variants d ids = Ok c →
  c = CNaN ∨ ∃ l r f, d !! "CSQ" = Some (ICsq l) ∧ c = CRec r ∧ r ∈ l
                      ∧ r !! "Feature" = Some f ∧ f ∈ ids.
Proof.
  unfold find_variants, getitem.
  destruct (d !! "CSQ") as [v|] eqn:Hd; [|done]. simpl.
  intros (l & Hl & (variants & Hloop & [= Hres])%bind_Ok)%bind_Ok.
  apply find_result_cases in Hres as [->|(r & -> & ->)]; [by left|right].
  apply find_loop_sound in Hloop as [|(Hr & f & Hf & Hin)]; [done|].
  destruct v as [s|l0]; simpl in Hl.
  - destruct s; [|done]. injection Hl as <-. by apply not_elem_of_nil in Hr.
  - injection Hl as ->. by exists l, r, f.
Qed.

Lemma find_variants_maf_sound ids c l :
  find_variants_maf l ids = Ok c →
  c = CNaN ∨ ∃ r f, c = CRec r ∧ r ∈ l
                    ∧ r !! "Transcript_ID_all_effects" = Some f ∧ f ∈ ids.
Proof.
  unfold find_variants_maf.
  intros (variants & Hloop & [= Hres])%bind_Ok.
  apply find_result_cases in Hres as [->|(r & -> & ->)]; [by left|right].
  apply find_loop_sound in Hloop as [|(Hr & f & Hf & Hin)]; [done|].
  by exists r, f.
Qed.

(** X13.  The resolvers never invent a match: whatever the sequence, a result
    other than [NaN] is a sub-record of the sequence whose transcript
    identifier is in [id_list]; in particular an empty [id_list] or an
    empty sequence gives [NaN]. *)
Theorem resolver_sound (ids : list string) (c : cell) :
  (∀ d, find_variants d ids = Ok c →
        c = CNaN ∨ ∃ l r f, d !! "CSQ" = Some (ICsq l) ∧ c = CRec r ∧ r ∈ l
                            ∧ r !! "Feature" = Some f ∧ f ∈ ids)
  ∧ (∀ l, find_variants_maf l ids = Ok c →
          c = CNaN ∨ ∃ r f, c = CRec r ∧ r ∈ l
                            ∧ r !! "Transcript_ID_all_effects" = Some f ∧ f ∈ ids).
Proof.
  split; [intros d; apply find_variants_sound|intros l; apply find_variants_maf_sound].
Qed.

Lemma resolver_sound_witness :
  CRec (example_sub "Feature" "T1" "3") = CNaN
  ∨ ∃ l r f, ({["CSQ" := ICsq (example_subs "Feature")]} : info_dict) !! "CSQ"
             = Some (ICsq l)
             ∧ CRec (example_sub "Feature" "T1" "3") = CRec r ∧ r ∈ l
             ∧ r !! "Feature" = Some f ∧ f ∈ ["T1"].
Proof.
  apply (proj1 (resolver_sound ["T1"] (CRec (example_sub "Feature" "T1" "3")))
           {["CSQ" := ICsq (example_subs "Feature")]}).
  vm_compute. reflexivity.
Defined.

Lemma filter_then_find_vcf variant variant_class ids r d d' :
  filter_variants d variant variant_class = Ok d' →
  find_variants d' ids = Ok (CRec r) →
  ∃ c k f, r !! "Consequence" = Some c ∧ contains variant c = true
           ∧ r !! "VARIANT_CLASS" = Some k ∧ contains variant_class k = true
           ∧ r !! "Feature" = Some f ∧ f ∈ ids.
Proof.
  intros Hfilter Hfind.
  destruct (find_variants_sound ids (CRec r) d' Hfind)
    as [|(l & r' & f & Hl & [= <-] & Hr & Hf & Hin)]; [done|].
  unfold filter_variants in Hfilter.
  apply bind_Ok in Hfilter as (v & _ & (l0 & _ & (l' & Hl' & [= <-])%bind_Ok)%bind_Ok).
  rewrite lookup_insert_eq in Hl. injection Hl as ->.
  pose proof (filterM_kept _ _ _ Hl') as Hkept. rewrite Forall_forall in Hkept.
  destruct (Hkept r Hr) as [_ (c & k & ? & ? & ? & ?)%keep_vcf_true].
  by exists c, k, f.
Qed.

Lemma filter_then_find_maf consequence ids r l l' :
  filter_variants_maf l consequence = Ok (CRecs l') →
  find_variants_maf l' ids = Ok (CRec r) →
  ∃ c f, r !! "Consequence_all_effects" = Some c ∧ contains consequence c = true
         ∧ r !! "Transcript_ID_all_effects" = Some f ∧ f ∈ ids.
Proof.
  intros Hfilter Hfind.
  destruct (find_variants_maf_sound ids (CRec r) l' Hfind)
    as [|(r' & f & [= <-] & Hr & Hf & Hin)]; [done|].
  unfold filter_variants_maf in Hfilter.
  apply bind_Ok in Hfilter as (k & Hk & Hres).
  destruct (0 <? length k); [|done]. injection Hres as ->.
  pose proof (filterM_kept _ _ _ Hk) as Hkept. rewrite Forall_forall in Hkept.
  destruct (Hkept r Hr) as [_ Htrue].
  unfold keep_maf, getitem in Htrue.
  destruct (r !! "Consequence_all_effects") as [c|] eqn:Hc; [|done].
  injection Htrue as Htrue. by exists c, f.
Qed.

(** X15.  Filtering and resolving compose: the sub-record selected from a
    filtered INFO dictionary satisfies every test, its [Consequence]
    contains [variant], its [VARIANT_CLASS] contains [variant_class] and
    its [Feature] is in [id_list]; likewise on the MAF path. *)
Theorem filter_then_find (variant variant_class : string) (ids : list string)
    (r : subrecord) :
  (∀ d d', filter_variants d variant variant_class = Ok d' →
           find_variants d' ids = Ok (CRec r) →
           ∃ c k f, r !! "Consequence" = Some c ∧ PyStr.contains variant c = true
                    ∧ r !! "VARIANT_CLASS" = Some k
                    ∧ PyStr.contains variant_class k = true
                    ∧ r !! "Feature" = Some f ∧ f ∈ ids)
  ∧ (∀ l l', filter_variants_maf l variant = Ok (CRecs l') →
             find_variants_maf l' ids = Ok (CRec r) →
             ∃ c f, r !! "Consequence_all_effects" = Some c
                    ∧ PyStr.contains variant c = true
                    ∧ r !! "Transcript_ID_all_effects" = Some f ∧ f ∈ ids).
Proof.
  split.
  - intros d d'. apply filter_then_find_vcf.
  - intros l l'. apply filter_then_find_maf.
Qed.

Lemma filter_then_find_witness :
  ∃ c k f, (<["Feature" := "ENST1"]>
              (<["VARIANT_CLASS" := "SNP"]> {["Consequence" := "missense_variant"]})
            : subrecord) !! "Consequence" = Some c
           ∧ PyStr.contains "missense" c = true
           ∧ (<["Feature" := "ENST1"]>
                (<["VARIANT_CLASS" := "SNP"]> {["Consequence" := "missense_variant"]})
              : subrecord) !! "VARIANT_CLASS" = Some k
           ∧ PyStr.contains "SNP" k = true
           ∧ (<["Feature" := "ENST1"]>
                (<["VARIANT_CLASS" := "SNP"]> {["Consequence" := "missense_variant"]})
              : subrecord) !! "Feature" = Some f
           ∧ f ∈ ["ENST1"; "ENST2"].
Proof.
  eapply (proj1 (filter_then_find "missense" "SNP" ["ENST1"; "ENST2"]
                   (<["Feature" := "ENST1"]>
                      (<["VARIANT_CLASS" := "SNP"]>
                         {["Consequence" := "missense_variant"]})))
            {["CSQ" := ICsq [<["Feature" := "ENST9"]>
                               (<["VARIANT_CLASS" := "SNP"]>
                                  {["Consequence" := "missense_variant"]});
                             <["Feature" := "ENST1"]>
                               (<["VARIANT_CLASS" := "SNP"]>
                                  {["Consequence" := "missense_variant"]});
                             <["Feature" := "ENST2"]>
                               (<["VARIANT_CLASS" := "SNP"]>
                                  {["Consequence" := "stop_gained"]})]]});
    vm_compute; reflexivity.
Defined.

(** * Further properties of the pipelines *)

Lemma row_apply_Ok src dst f r r' :
  row_apply src dst f r = Ok r' ↔
  ∃ c v, r !! src = Some c ∧ f c = Ok v ∧ r' = <[dst := v]> r.
Proof.
  unfold row_apply, getitem. split.
  - destruct (r !! src) as [c|]; [|done]. simpl.
    intros (v & Hv & [= <-])%bind_Ok. by exists c, v.
  - intros (c & v & -> & Hv & ->). simpl. by rewrite Hv.
Qed.

Lemma dropna_elem col (df : frame) r :
  r ∈ dropna col df → r ∈ df ∧ r !! col ≠ Some CNaN.
Proof.
  unfold dropna. intros [Hin Hr]%list_elem_of_In%filter_In.
  split; [by apply list_elem_of_In|]. intros Hc. by rewrite Hc in Hr.
Qed.

Lemma dropna_length col (df : frame) : length (dropna col df) ≤ length df.
Proof.
  unfold dropna. induction df as [|r df IH]; simpl; [done|].
  destruct (match r !! col with Some c => negb (is_na c) | None => true end);
    simpl; lia.
Qed.

Lemma normalize_keys_dom (ds : list subrecord) d :
  d ∈ ds → dom d ⊆ normalize_keys ds.
Proof.
  induction ds as [|x ds IH]; [by intros ?%not_elem_of_nil|].
  intros [->|Hin]%elem_of_cons; simpl; [apply union_subseteq_l|].
  etrans; [by apply IH|apply union_subseteq_r].
Qed.

Lemma normalize_row_dom keys (d : subrecord) :
  dom d ⊆ keys → dom (normalize_row keys d) = keys.
Proof.
  intros Hd. unfold normalize_row.
  rewrite dom_union_L, dom_fmap_L, dom_gset_to_gmap. by apply subseteq_union_1_L.
Qed.

Lemma normalize_row_lookup keys (d : subrecord) k v :
  d !! k = Some v → normalize_row keys d !! k = Some (CStr v).
Proof.
  intros Hk. unfold normalize_row. apply lookup_union_Some_l.
  by rewrite lookup_fmap, Hk.
Qed.

Lemma Forall2_zip_map {A B C D} (P : A → B → Prop) (f : A → C) (g : B → D) l k :
  Forall2 P l k →
  Forall (λ p, ∃ x y, x ∈ l ∧ y ∈ k ∧ P x y ∧ p = (f x, g y)) (zip (map f l) (map g k)).
Proof.
  induction 1 as [|x y l k Hxy _ IH]; [constructor|]. simpl. constructor.
  - exists x, y. split_and!; [by left|by left|done|done].
  - eapply Forall_impl; [done|]. intros p (x' & y' & ? & ? & ? & ->).
    exists x', y'. split_and!; [by right|by right|done|done].
Qed.

Lemma Forall2_elem_r {A B} (P : A → B → Prop) l k y :
  Forall2 P l k → y ∈ k → ∃ x, x ∈ l ∧ P x y.
Proof.
  induction 1 as [|x y' l k Hxy _ IH]; [by intros ?%not_elem_of_nil|].
  intros [->|Hin]%elem_of_cons.
  - exists x. split; [by left|done].
  - destruct (IH Hin) as (x' & ? & ?). exists x'. split; [by right|done].
Qed.

(** The rows of the joined table produced by [extend]. *)
Lemma extend_rows src find df t :
  extend src find df = Ok t →
  ∃ rows, t = Joined rows
    ∧ length rows ≤ length df
    ∧ (∃ keys, Forall (λ p : row * row, dom p.2 = keys) rows)
    ∧ Forall (λ p : row * row,
        p.1 !! "Variant_INFO" = None
        ∧ ∃ r c d, r ∈ df ∧ r !! src = Some c ∧ find c = Ok (CRec d)
                   ∧ p.1 = delete "Variant_INFO" r
                   ∧ ∀ k v, d !! k = Some v → p.2 !! k = Some (CStr v)) rows.
Proof.
  unfold extend, json_normalize.
  intros (df1 & Hdf1 & (dv & (ds & Hds & [= <-])%bind_Ok & [= <-])%bind_Ok)%bind_Ok.
  unfold apply_col in Hdf1. apply traverse_Ok in Hdf1. apply traverse_Ok in Hds.
  eexists. split; [done|].
  pose proof (Forall2_zip_map _ (delete "Variant_INFO")
                (normalize_row (normalize_keys ds)) _ _ Hds) as Hzip.
  unfold concat_drop. split_and!.
  - rewrite length_zip, !length_map.
    pose proof (dropna_length "Variant_INFO" df1).
    apply Forall2_length in Hdf1. lia.
  - exists (normalize_keys ds). eapply Forall_impl; [exact Hzip|].
    intros p (r2 & d & _ & Hd & _ & ->). simpl.
    by apply normalize_row_dom, normalize_keys_dom.
  - eapply Forall_impl; [exact Hzip|].
    intros p (r2 & d & Hr2 & Hd & Hrd & ->). simpl.
    split; [apply lookup_delete_eq|].
    apply dropna_elem in Hr2 as [Hr2 _].
    destruct (Forall2_elem_r _ _ _ _ Hdf1 Hr2) as (r & Hr & Happ).
    apply row_apply_Ok in Happ as (c & v & Hc & Hv & ->).
    unfold getitem in Hrd. rewrite lookup_insert_eq in Hrd. simpl in Hrd.
    destruct v; try done. injection Hrd as ->.
    exists r, c, d. split_and!; [done..|by rewrite delete_insert_eq|].
    intros k v. apply normalize_row_lookup.
Qed.

Lemma vcf_mask_pass sc variant r :
  vcf_mask sc variant r = Ok true → r !! "FILTER" = Some (CStr "PASS").
Proof.
  unfold vcf_mask, getitem. destruct (r !! "FILTER") as [f|]; [|done]. simpl.
  destruct (r !! "INFO"); [|done]. simpl. intros [= [Hf _]%andb_true_iff].
  destruct f; try done. simpl in Hf. by apply bool_decide_eq_true in Hf as ->.
Qed.

Lemma vcf_filtered_rows sc keys df variant variant_class out :
  vcf_filtered sc keys df variant variant_class = Ok out →
  length out ≤ length df
  ∧ Forall (λ r, ∃ r0 x d, r0 ∈ df ∧ vcf_mask sc variant r0 = Ok true
                           ∧ r0 !! "INFO" = Some (CStr x)
                           ∧ decode_filter_info keys variant variant_class x = Ok d
                           ∧ r = <["INFO" := CInfo d]> r0) out.
Proof.
  intros (kept & Hkept & Hout)%vcf_filtered_Ok. split.
  - apply Forall2_length in Hout. apply filterM_length in Hkept. lia.
  - apply Forall_forall. intros r Hr.
    destruct (Forall2_elem_r _ _ _ _ Hout Hr) as (r0 & Hr0 & x & d & Hx & Hd & ->).
    pose proof (filterM_kept _ _ _ Hkept) as Hk. rewrite Forall_forall in Hk.
    destruct (Hk r0 Hr0) as [? ?]. by exists r0, x, d.
Qed.

Lemma maf_filtered_rows df consequence out :
  maf_filtered df consequence = Ok out →
  length out ≤ length df
  ∧ Forall (λ r, ∃ r0 x l, r0 ∈ df ∧ r0 !! "all_effects" = Some (CStr x)
                           ∧ filter_variants_maf (decode_all_effects x) consequence
                             = Ok (CRecs l)
                           ∧ r = <["all_effects" := CRecs l]> r0) out.
Proof.
  intros (mid & Hmid & ->)%maf_filtered_Ok. split.
  - pose proof (dropna_length "all_effects" mid). apply Forall2_length in Hmid. lia.
  - apply Forall_forall. intros r [Hr Hna]%dropna_elem.
    destruct (Forall2_elem_r _ _ _ _ Hmid Hr) as (r0 & Hr0 & x & c & Hx & Hc & ->).
    rewrite lookup_insert_eq in Hna.
    assert (∃ l, c = CRecs l) as [l ->].
    { unfold filter_variants_maf in Hc. apply bind_Ok in Hc as (k & _ & Hc).
      destruct (0 <? length k); injection Hc as <-; [by eexists|done]. }
    by exists r0, x, l.
Qed.

Lemma decode_filter_info_kept keys variant variant_class x d :
  decode_filter_info keys variant variant_class x = Ok d →
  ∃ l, d !! "CSQ" = Some (ICsq l)
       ∧ Forall (λ r, vcf_pred variant variant_class r = true) l.
Proof.
  unfold decode_filter_info, filter_variants.
  intros (d0 & _ & (d1 & _ & (v & _ & (l & _ & (l' & Hl' & [= <-])%bind_Ok)%bind_Ok)
    %bind_Ok)%bind_Ok)%bind_Ok.
  exists l'. split; [apply lookup_insert_eq|].
  eapply Forall_impl; [by eapply filterM_kept|]. intros r [_ Hr].
  apply keep_vcf_true in Hr as (c & k & Hc & Hvc & Hk & Hkc).
  unfold vcf_pred. by rewrite Hc, Hk, Hvc, Hkc.
Qed.

(** X16.  Invariant of the filtered VCF table (lines 283 to 295), whatever
    [id_list] is: it has no more rows than the input, every row has
    [FILTER] equal to [PASS], and its INFO is a dictionary whose CSQ list
    holds only sub-records that pass both tests. *)
Theorem vcf_filtered_invariant (sc : string → cell → bool) (keys : pyseq) (df out : frame)
    (variant variant_class : string) :
  vcf_filtered sc keys df variant variant_class = Ok out →
  length out ≤ length df
  ∧ Forall (λ r : row,
      r !! "FILTER" = Some (CStr "PASS")
      ∧ ∃ d l, r !! "INFO" = Some (CInfo d) ∧ d !! "CSQ" = Some (ICsq l)
               ∧ Forall (λ s, vcf_pred variant variant_class s = true) l) out.
Proof.
  intros [Hlen Hrows]%vcf_filtered_rows. split; [done|].
  eapply Forall_impl; [done|]. intros r (r0 & x & d & _ & Hmask & _ & Hd & ->).
  split.
  - rewrite lookup_insert_ne by done. by eapply vcf_mask_pass.
  - apply decode_filter_info_kept in Hd as (l & Hl & Hall).
    exists d, l. split_and!; [apply lookup_insert_eq|done..].
Qed.

Lemma vcf_filtered_invariant_witness :
  length example_vcf_out ≤ length example_vcf_frame
  ∧ Forall (λ r : row,
      r !! "FILTER" = Some (CStr "PASS")
      ∧ ∃ d l, r !! "INFO" = Some (CInfo d) ∧ d !! "CSQ" = Some (ICsq l)
               ∧ Forall (λ s, vcf_pred "missense_variant" "SNP" s = true) l)
      example_vcf_out.
Proof.
  apply (vcf_filtered_invariant literal_contains example_keys example_vcf_frame
           example_vcf_out "missense_variant" "SNP").
  vm_compute. reflexivity.
Defined.

(** X17.  Invariant of the filtered MAF table (lines 370 to 376): it has no
    more rows than the input, and in every row [all_effects] is a
    non-empty list of sub-records whose [Consequence_all_effects] contains
    [consequence]; no row holds [NaN] or an empty list. *)
Theorem maf_filtered_invariant (df out : frame) (consequence : string) :
  maf_filtered df consequence = Ok out →
  length out ≤ length df
  ∧ Forall (λ r : row,
      ∃ l, r !! "all_effects" = Some (CRecs l) ∧ l ≠ []
           ∧ Forall (λ s, maf_pred consequence s = true) l) out.
Proof.
  intros [Hlen Hrows]%maf_filtered_rows. split; [done|].
  eapply Forall_impl; [done|]. intros r (r0 & x & l & _ & _ & Hl & ->).
  exists l. split; [apply lookup_insert_eq|].
  unfold filter_variants_maf in Hl. apply bind_Ok in Hl as (k & Hk & Hres).
  destruct (0 <? length k) eqn:Hlenk; [|done]. injection Hres as <-.
  split; [by destruct k|].
  eapply Forall_impl; [by eapply filterM_kept|]. intros s [_ Hs].
  unfold keep_maf, getitem in Hs. unfold maf_pred.
  destruct (s !! "Consequence_all_effects"); [|done]. by injection Hs.
Qed.

Lemma maf_filtered_invariant_witness :
  length example_maf_out ≤ length example_maf_frame
  ∧ Forall (λ r : row,
      ∃ l, r !! "all_effects" = Some (CRecs l) ∧ l ≠ []
           ∧ Forall (λ s, maf_pred "missense_variant" s = true) l) example_maf_out.
Proof.
  apply (maf_filtered_invariant example_maf_frame example_maf_out "missense_variant").
  vm_compute. reflexivity.
Defined.

Lemma cell_find_sound ids c r :
  cell_find ids c = Ok (CRec r) → ∃ d, c = CInfo d ∧ find_variants d ids = Ok (CRec r).
Proof. destruct c; try done. intros H. by eexists. Qed.

Lemma cell_find_maf_sound ids c r :
  cell_find_maf ids c = Ok (CRec r) →
  ∃ l, c = CRecs l ∧ find_variants_maf l ids = Ok (CRec r).
Proof. destruct c; try done. intros H. by eexists. Qed.

Lemma decode_filter_info_filter keys variant variant_class x d :
  decode_filter_info keys variant variant_class x = Ok d →
  ∃ d1, filter_variants d1 variant variant_class = Ok d.
Proof.
  unfold decode_filter_info.
  intros (d0 & _ & (d1 & _ & Hd)%bind_Ok)%bind_Ok. by exists d1.
Qed.

(** X18.  Join on the VCF path.  With a non-empty [id_list], a result of the
    pipeline is a joined table with at most as many rows as the input.
    In every row the column [Variant_INFO] is gone, [FILTER] is [PASS],
    and the flattened block carries a sub-record that passed every test:
    its [Consequence] contains [variant], its [VARIANT_CLASS] contains
    [variant_class] and its [Feature] is in [id_list]. *)
Theorem vcf_join_rows (sc : string → cell → bool) (keys : pyseq) (df : frame)
    (variant variant_class : string) (ids : list string) (t : table) :
  ids ≠ [] →
  process_vcf sc keys df variant variant_class ids = Ok t →
  ∃ rows, t = Joined rows
    ∧ length rows ≤ length df
    ∧ Forall (λ p : row * row,
        p.1 !! "Variant_INFO" = None
        ∧ p.1 !! "FILTER" = Some (CStr "PASS")
        ∧ ∃ c k f, p.2 !! "Consequence" = Some (CStr c)
                   ∧ PyStr.contains variant c = true
                   ∧ p.2 !! "VARIANT_CLASS" = Some (CStr k)
                   ∧ PyStr.contains variant_class k = true
                   ∧ p.2 !! "Feature" = Some (CStr f) ∧ f ∈ ids) rows.
Proof.
  intros Hids. unfold process_vcf.
  intros (out & Hout & Hext)%bind_Ok.
  replace (0 <? length ids) with true in Hext by (by destruct ids).
  apply vcf_filtered_rows in Hout as [Hlen Hout].
  apply extend_rows in Hext as (rows & -> & Hlen' & _ & Hrows).
  exists rows. split_and!; [done|lia|].
  eapply Forall_impl; [exact Hrows|].
  intros p (Hvi & r & c & d & Hr & Hc & Hfind & Hp1 & Hp2).
  rewrite Forall_forall in Hout.
  destruct (Hout r Hr) as (r0 & x & d0 & _ & Hmask & _ & Hd0 & ->).
  rewrite lookup_insert_eq in Hc. injection Hc as <-.
  apply cell_find_sound in Hfind as (d' & [= <-] & Hfind).
  apply decode_filter_info_filter in Hd0 as (d1 & Hd1).
  destruct (filter_then_find_vcf _ _ _ _ _ _ Hd1 Hfind)
    as (cs & k & f & Hcs & ? & Hk & ? & Hf & ?).
  split_and!; [done| |].
  - rewrite Hp1, lookup_delete_ne, lookup_insert_ne by done.
    by eapply vcf_mask_pass.
  - exists cs, k, f. split_and!; [by apply Hp2|done|by apply Hp2|done|by apply Hp2|done].
Qed.

Lemma vcf_join_rows_witness :
  ∃ rows, Joined example_vcf_joined = Joined rows
    ∧ length rows ≤ length example_vcf_frame
    ∧ Forall (λ p : row * row,
        p.1 !! "Variant_INFO" = None
        ∧ p.1 !! "FILTER" = Some (CStr "PASS")
        ∧ ∃ c k f, p.2 !! "Consequence" = Some (CStr c)
                   ∧ PyStr.contains "missense_variant" c = true
                   ∧ p.2 !! "VARIANT_CLASS" = Some (CStr k)
                   ∧ PyStr.contains "SNP" k = true
                   ∧ p.2 !! "Feature" = Some (CStr f) ∧ f ∈ ["ENST2"]) rows.
Proof.
  apply (vcf_join_rows literal_contains example_keys example_vcf_frame
           "missense_variant" "SNP" ["ENST2"] (Joined example_vcf_joined)).
  - done.
  - vm_compute. reflexivity.
Defined.

(** X19.  Join on the MAF path.  With a non-empty [id_list], a result of the
    pipeline is a joined table with at most as many rows as the input.
    In every row the column [Variant_INFO] is gone, [all_effects] still
    holds the non-empty filtered list, and the flattened block carries a
    sub-record whose [Consequence_all_effects] contains [consequence] and
    whose [Transcript_ID_all_effects] is in [id_list]. *)
Theorem maf_join_rows (df : frame) (variant consequence variant_class : string)
    (ids : list string) (t : table) :
  ids ≠ [] →
  process_maf df variant consequence variant_class ids = Ok t →
  ∃ rows, t = Joined rows
    ∧ length rows ≤ length df
    ∧ Forall (λ p : row * row,
        p.1 !! "Variant_INFO" = None
        ∧ (∃ l, p.1 !! "all_effects" = Some (CRecs l) ∧ l ≠ [])
        ∧ ∃ c f, p.2 !! "Consequence_all_effects" = Some (CStr c)
                 ∧ PyStr.contains consequence c = true
                 ∧ p.2 !! "Transcript_ID_all_effects" = Some (CStr f) ∧ f ∈ ids) rows.
Proof.
  intros Hids. unfold process_maf.
  intros (out & Hout & Hext)%bind_Ok.
  replace (0 <? length ids) with true in Hext by (by destruct ids).
  apply maf_filtered_rows in Hout as [Hlen Hout].
  apply extend_rows in Hext as (rows & -> & Hlen' & _ & Hrows).
  exists rows. split_and!; [done|lia|].
  eapply Forall_impl; [exact Hrows|].
  intros p (Hvi & r & c & d & Hr & Hc & Hfind & Hp1 & Hp2).
  rewrite Forall_forall in Hout.
  destruct (Hout r Hr) as (r0 & x & l & _ & _ & Hl & ->).
  rewrite lookup_insert_eq in Hc. injection Hc as <-.
  apply cell_find_maf_sound in Hfind as (l' & [= <-] & Hfind).
  destruct (filter_then_find_maf _ _ _ _ _ Hl Hfind) as (cs & f & Hcs & ? & Hf & ?).
  split_and!; [done| |].
  - exists l. split.
    + rewrite Hp1, lookup_delete_ne by done. apply lookup_insert_eq.
    + intros ->. unfold find_variants_maf in Hfind. simpl in Hfind. done.
  - exists cs, f. split_and!; [by apply Hp2|done|by apply Hp2|done].
Qed.

Lemma maf_join_rows_witness :
  ∃ rows, Joined example_maf_joined = Joined rows
    ∧ length rows ≤ length example_maf_frame
    ∧ Forall (λ p : row * row,
        p.1 !! "Variant_INFO" = None
        ∧ (∃ l, p.1 !! "all_effects" = Some (CRecs l) ∧ l ≠ [])
        ∧ ∃ c f, p.2 !! "Consequence_all_effects" = Some (CStr c)
                 ∧ PyStr.contains "missense_variant" c = true
                 ∧ p.2 !! "Transcript_ID_all_effects" = Some (CStr f)
                 ∧ f ∈ ["ENST2"]) rows.
Proof.
  apply (maf_join_rows example_maf_frame "Missense_Mutation" "missense_variant" "SNP"
           ["ENST2"] (Joined example_maf_joined)).
  - done.
  - vm_compute. reflexivity.
Defined.

Lemma find_loop_succeeds field ids acc l :
  succeeds (find_loop field ids acc l) ↔ Forall (λ r : subrecord, is_Some (r !! field)) l.
Proof.
  revert acc. induction l as [|x l IH]; intros acc; cbn [find_loop].
  - split; [constructor|by eexists].
  - rewrite Forall_cons. unfold getitem.
    destruct (x !! field) as [f|]; simpl.
    + case_decide; rewrite IH; split; (try by intros [_ ?]); by split; [eexists|].
    + split; [by intros [? ?]|by intros [[? ?] _]].
Qed.

Lemma find_loop_Raise field ids acc l e :
  find_loop field ids acc l = Raise e → e = KeyError.
Proof.
  revert acc. induction l as [|x l IH]; intros acc; cbn [find_loop]; [done|].
  unfold getitem. destruct (x !! field); simpl; [|congruence].
  case_decide; apply IH.
Qed.

(** X14.  The resolvers read the identifier of every sub-record, also of those
    after a match: they return exactly when every sub-record of the
    sequence carries the identifier field, and raise [KeyError], nothing
    else, when one lacks it. *)
Theorem resolver_succeeds (ids : list string) (l : list subrecord) :
  (∀ d : info_dict, d !! "CSQ" = Some (ICsq l) →
     (succeeds (find_variants d ids) ↔ Forall (λ r, is_Some (r !! "Feature")) l)
     ∧ ∀ e, find_variants d ids = Raise e → e = KeyError)
  ∧ (succeeds (find_variants_maf l ids) ↔
     Forall (λ r, is_Some (r !! "Transcript_ID_all_effects")) l)
  ∧ (∀ e, find_variants_maf l ids = Raise e → e = KeyError).
Proof.
  split_and!.
  - intros d Hd. unfold find_variants, getitem. rewrite Hd. simpl. split.
    + rewrite <-(find_loop_succeeds "Feature" ids None). unfold succeeds. split.
      * intros [c (v & -> & _)%bind_Ok]. eauto.
      * intros [v ->]. simpl. eauto.
    + intros e. destruct (find_loop _ _ _ l) eqn:E; [done|]. simpl.
      intros [= <-]. by eapply find_loop_Raise.
  - unfold find_variants_maf.
    rewrite <-(find_loop_succeeds "Transcript_ID_all_effects" ids None).
    unfold succeeds. split.
    + intros [c (v & -> & _)%bind_Ok]. eauto.
    + intros [v ->]. simpl. eauto.
  - intros e. unfold find_variants_maf.
    destruct (find_loop _ _ _ l) eqn:E; [done|]. simpl.
    intros [= <-]. by eapply find_loop_Raise.
Qed.

Lemma resolver_succeeds_witness :
  find_variants_maf
    [example_sub "Transcript_ID_all_effects" "T1" "1"; {["Symbol_all_effects" := "TP53"]}]
    ["T1"] = Raise KeyError.
Proof.
  destruct (resolver_succeeds ["T1"]
              [example_sub "Transcript_ID_all_effects" "T1" "1";
               {["Symbol_all_effects" := "TP53"]}]) as (_ & _ & Hraise).
  destruct (find_variants_maf _ _) as [c|e] eqn:E.
  - vm_compute in E. discriminate E.
  - f_equal. by apply Hraise.
Defined.

Lemma decode_filter_info_needs_consequence keys variant variant_class x :
  "Consequence" ∉ iter keys →
  ¬ succeeds (decode_filter_info keys variant variant_class x).
Proof.
  intros Hk [d Hd]. unfold decode_filter_info in Hd.
  apply bind_Ok in Hd as (d0 & _ & (d1 & Hd1 & Hd)%bind_Ok).
  unfold update_value, getitem in Hd1.
  destruct (d0 !! "CSQ") as [[s|?]|]; simpl in Hd1; [|done..].
  injection Hd1 as <-. unfold filter_variants, getitem in Hd.
  rewrite lookup_insert_eq in Hd. simpl in Hd.
  apply bind_Ok in Hd as (l' & Hl' & _).
  pose proof (split_go_nonempty "," 0 s) as Hne. fold (split s ",") in Hne.
  destruct (split s ",") as [|entry rest]; [done|]. simpl in Hl'.
  apply bind_Ok in Hl' as (b & Hb & _). unfold keep_vcf, getitem in Hb.
  destruct (decode_entry keys "|" entry !! "Consequence") as [c|] eqn:Hc; [|done].
  apply Hk. assert (is_Some (decode_entry keys "|" entry !! "Consequence")) as Hs
    by by eexists.
  apply dict_zip_dom in Hs. by eapply subseteq_take.
Qed.

(** X20.  Without a usable schema the VCF pipeline cannot process a row: when
    the schema has no key [Consequence], as is the case for the [''] that
    [csqkeys] returns for a header without CSQ declaration, decoding and
    filtering an INFO text raises for every text, so the pipeline returns
    only when no row passes the mask of line 283, and then with an empty
    table. *)
Theorem missing_schema_fails (keys : pyseq) (variant variant_class : string) :
  "Consequence" ∉ iter keys →
  (∀ x, ¬ succeeds (decode_filter_info keys variant variant_class x))
  ∧ (∀ sc df ids t,
       process_vcf sc keys df variant variant_class ids = Ok t →
       filterM (vcf_mask sc variant) df = Ok [] ∧ (t = Table [] ∨ t = Joined [])).
Proof.
  intros Hk. split.
  - intros x. by apply decode_filter_info_needs_consequence.
  - intros sc df ids t. unfold process_vcf.
    intros (out & (kept & Hkept & Hout)%vcf_filtered_Ok & Ht)%bind_Ok.
    destruct Hout as [|r r' kept out (x & d & _ & Hd & _) _].
    + split; [done|]. destruct (0 <? length ids).
      * right. vm_compute in Ht. by injection Ht as <-.
      * left. by injection Ht as <-.
    + exfalso. eapply decode_filter_info_needs_consequence; [done|by eexists].
Qed.

Lemma missing_schema_fails_witness :
  decode_filter_info (PStr "") "missense_variant" "SNP"
    "DP=10;CSQ=T|missense_variant|ENST1|SNP" = Raise KeyError.
Proof.
  destruct (decode_filter_info (PStr "") "missense_variant" "SNP"
              "DP=10;CSQ=T|missense_variant|ENST1|SNP") as [d|e] eqn:E.
  - exfalso.
    apply (proj1 (missing_schema_fails (PStr "") "missense_variant" "SNP"
                    (not_elem_of_nil _))
             "DP=10;CSQ=T|missense_variant|ENST1|SNP").
    by eexists.
  - vm_compute in E. by injection E as <-.
Defined.

(** X21.  The flag [return_case_id] does not change the table: the call with the
    flag set returns [(table, identifier, sample_id)] exactly when the call
    without it returns [table] and [case_id] returns
    [(identifier, sample_id)] for the file; in particular a failure of
    [case_id] fails the call with the flag only. *)
Theorem return_case_id_flag (gunzip : string → result string)
    (pd_infer : string → option (string → result string))
    (parse_vcf : string → nat → result frame) (sc : string → cell → bool)
    (f : file) (variant variant_class : string) (ids : list string)
    (t : table) (identifier sample_id : string) :
  read_process_vcf gunzip pd_infer parse_vcf sc f variant variant_class ids true
  = Ok (RetId t identifier sample_id)
  ↔ read_process_vcf gunzip pd_infer parse_vcf sc f variant variant_class ids false
    = Ok (Ret t)
    ∧ case_id gunzip f = Ok (identifier, sample_id).
Proof.
  unfold read_process_vcf.
  destruct (rows2skip gunzip f) as [n|]; simpl; [|by split; [|intros [? _]]].
  destruct (csqkeys gunzip f) as [keys|]; simpl; [|by split; [|intros [? _]]].
  destruct (read_vcf pd_infer parse_vcf f n) as [df|]; simpl;
    [|by split; [|intros [? _]]].
  destruct (process_vcf sc keys df variant variant_class ids) as [out|]; simpl;
    [|by split; [|intros [? _]]].
  destruct (case_id gunzip f) as [[i s]|]; simpl.
  - split; [by intros [= -> -> ->]|by intros [[= ->] [= -> ->]]].
  - split; [done|by intros [_ ?]].
Qed.

Lemma return_case_id_flag_witness :
  ∃ t,
    read_process_vcf example_gunzip example_infer example_parse literal_contains
      example_gz "missense_variant" "SNP" ["ENST1"] false = Ok (Ret t)
    ∧ case_id example_gunzip example_gz = Ok ("C1", "S9").
Proof.
  eexists.
  apply (proj1 (return_case_id_flag example_gunzip example_infer example_parse
                  literal_contains example_gz "missense_variant" "SNP" ["ENST1"]
                  _ "C1" "S9")).
  vm_compute. reflexivity.
Defined.
